(** * Transaction coordinators of the No False Negatives Database

    A shallow embedding of the two [TransactionCoordinator] class templates

      - [twopl_table::transaction::TransactionCoordinator]
        (svcc/cc/2pl_table/transaction_coordinator.hpp), module [TwoPL];
      - [nofalsenegatives::transaction::TransactionCoordinator]
        (svcc/cc/nofalsenegatives/transaction_coordinator.hpp), module [SGT];

    and of the statements made about them.  64-bit words are integers of [Z],
    vectors are lists indexed with stdpp's lookup and insert, the two
    [std::unordered_set<uint64_t>] are [gset Z], and the coordinator's
    thread-local members are the fields of one record that every operation
    takes and returns.  [verify(transaction > 0)] and [verify(info > 0)] are
    the build with [NDEBUG], where the expression is evaluated and dropped. *)

From Stdlib Require Import ZArith Lia Bool.
From stdpp Require Import base decidable option list gmap.
From Equations Require Import Equations.

Local Open Scope Z_scope.

(** ** Access records *)

(** [0x8000000000000000] and [0x7FFFFFFFFFFFFFFF]. *)
Definition WRITE_BIT : Z := 0x8000000000000000.
Definition TX_MASK : Z := 0x7FFFFFFFFFFFFFFF.

(** The range of a [uint64_t]. *)
Definition uint64 (x : Z) : Prop := 0 <= x < 2 ^ 64.

(** [access(transaction, rw)]: the highest bit tells a write from a read, the
    lower 63 bits are the transaction id. *)
Definition access (transaction : Z) (rw : bool) : Z :=
  if rw then Z.lor WRITE_BIT transaction else Z.land TX_MASK transaction.

(** The conversion of a [uint64_t] to [bool] that [std::make_tuple] performs on
    the second component of [find]. *)
Definition to_bool (x : Z) : bool := negb (x =? 0).

(** [find(encoded_id)]: the transaction and the mode of an access record. *)
Definition find (encoded_id : Z) : Z * bool :=
  (Z.land TX_MASK encoded_id, to_bool (Z.shiftr encoded_id 63)).

(** ** Per-cell bookkeeping *)

(** Modelled from the spec: ds/atomic_singly_linked_list.hpp is not among the
    sources.  The list behind [rw_table[offset]] "supports atomic push_front
    returning a per-list ticket, erase-by-ticket, and forward iteration
    yielding (ticket, record)", and "the list returns a strictly increasing
    ticket per cell".  The tickets count the pushes made so far, so that the
    holder of the first one finds [lsn_column[offset]] at its initial 0. *)
Record RWList : Type := mkRWList {
  issued : Z;
  records : list (Z * Z)
}.

Definition push_front (l : RWList) (a : Z) : Z * RWList :=
  (issued l, mkRWList ((issued l + 1) mod 2 ^ 64) ((issued l, a) :: records l)).

Definition erase (l : RWList) (id : Z) : RWList :=
  mkRWList (issued l) (filter (λ r, r.1 ≠ id) (records l)).

(** The vectors that one call receives by reference: the value column with its
    [lsn_column], [rw_table] and lock vector ([locking] in the SS2PL
    coordinator, [locked] in the SGT one).  [L] is the type of a lock word. *)
Record Cells (L : Type) : Type := mkCells {
  column : list Z;
  lsn_column : list Z;
  rw_table : list RWList;
  locking : list L
}.
Arguments mkCells {L} _ _ _ _.
Arguments column {L} _.
Arguments lsn_column {L} _.
Arguments rw_table {L} _.
Arguments locking {L} _.

#[global] Instance Cells_inhabited {L : Type} : Inhabited (Cells L) :=
  populate (mkCells [] [] [] []).

(** A reference to such a group of vectors: its key in the store. *)
Definition Ref : Type := nat.

(** [column.replace(offset, new)]: the external contract of the column, "atomic
    replace(offset, new) that returns the prior value". *)
Definition replace (col : list Z) (offset : nat) (new : Z) : Z * list Z :=
  (col !!! offset, <[offset := new]> col).

Definition set_column {L : Type} (f : list Z → list Z) (c : Cells L) : Cells L :=
  mkCells (f (column c)) (lsn_column c) (rw_table c) (locking c).

Definition set_rw_table {L : Type} (f : list RWList → list RWList) (c : Cells L) : Cells L :=
  mkCells (column c) (lsn_column c) (f (rw_table c)) (locking c).

Definition set_locking {L : Type} (f : list L → list L) (c : Cells L) : Cells L :=
  mkCells (column c) (lsn_column c) (rw_table c) (f (locking c)).

(** ** Undo records *)

(** Modelled from the spec: transaction_information.hpp is not among the
    sources.  A record is a read or a write undo entry; its fields are the
    arguments of the two constructor calls of the coordinators, the references
    to the vectors gathered in one [Ref]. *)
Inductive TxInfo : Type :=
| ReadTransactionInformation (cells : Ref) (prv : Z) (offset : nat) (transaction : Z)
| WriteTransactionInformation (new_value old_value : Z) (cells : Ref) (prv : Z)
    (offset : nat) (transaction : Z) (abort : bool).

Definition isWriteTransaction (t : TxInfo) : bool :=
  match t with
  | ReadTransactionInformation _ _ _ _ => false
  | WriteTransactionInformation _ _ _ _ _ _ _ => true
  end.

Definition isAbort (t : TxInfo) : bool :=
  match t with
  | ReadTransactionInformation _ _ _ _ => false
  | WriteTransactionInformation _ _ _ _ _ _ a => a
  end.

Definition info_cells (t : TxInfo) : Ref :=
  match t with
  | ReadTransactionInformation h _ _ _ => h
  | WriteTransactionInformation _ _ h _ _ _ _ => h
  end.

Definition info_prv (t : TxInfo) : Z :=
  match t with
  | ReadTransactionInformation _ p _ _ => p
  | WriteTransactionInformation _ _ _ p _ _ _ => p
  end.

Definition info_offset (t : TxInfo) : nat :=
  match t with
  | ReadTransactionInformation _ _ o _ => o
  | WriteTransactionInformation _ _ _ _ o _ _ => o
  end.

Definition info_transaction (t : TxInfo) : Z :=
  match t with
  | ReadTransactionInformation _ _ _ tx => tx
  | WriteTransactionInformation _ _ _ _ _ tx _ => tx
  end.

(** ** The coordinator object *)

(** The members of a [TransactionCoordinator]: [manager] is [lock_manager_]
    (SS2PL) or [sg_] (SGT); [alloc_] counts the records allocated from the
    chunk allocator and not yet given back; [eg_] tells whether the epoch
    guard is open; [store] holds the vectors that the calls pass by
    reference. *)
Record Coordinator (M L : Type) : Type := mkCoordinator {
  manager : M;
  alloc_ : Z;
  transaction_counter_ : Z;
  not_alive_ : gset Z;
  current_core_ : Z;
  abort_transaction_ : gset Z;
  atom_info_ : list TxInfo;
  eg_ : bool;
  store : gmap Ref (Cells L)
}.
Arguments mkCoordinator {M L} _ _ _ _ _ _ _ _ _.
Arguments manager {M L} _.
Arguments alloc_ {M L} _.
Arguments transaction_counter_ {M L} _.
Arguments not_alive_ {M L} _.
Arguments current_core_ {M L} _.
Arguments abort_transaction_ {M L} _.
Arguments atom_info_ {M L} _.
Arguments eg_ {M L} _.
Arguments store {M L} _.

Section Updates.
Context {M L : Type}.
Implicit Type st : Coordinator M L.

Definition set_manager (m : M) st : Coordinator M L :=
  mkCoordinator m (alloc_ st) (transaction_counter_ st) (not_alive_ st)
    (current_core_ st) (abort_transaction_ st) (atom_info_ st) (eg_ st) (store st).

Definition set_alloc (a : Z) st : Coordinator M L :=
  mkCoordinator (manager st) a (transaction_counter_ st) (not_alive_ st)
    (current_core_ st) (abort_transaction_ st) (atom_info_ st) (eg_ st) (store st).

Definition set_transaction_counter (c : Z) st : Coordinator M L :=
  mkCoordinator (manager st) (alloc_ st) c (not_alive_ st)
    (current_core_ st) (abort_transaction_ st) (atom_info_ st) (eg_ st) (store st).

Definition set_not_alive (s : gset Z) st : Coordinator M L :=
  mkCoordinator (manager st) (alloc_ st) (transaction_counter_ st) s
    (current_core_ st) (abort_transaction_ st) (atom_info_ st) (eg_ st) (store st).

Definition set_current_core (c : Z) st : Coordinator M L :=
  mkCoordinator (manager st) (alloc_ st) (transaction_counter_ st) (not_alive_ st)
    c (abort_transaction_ st) (atom_info_ st) (eg_ st) (store st).

Definition set_abort_transaction (s : gset Z) st : Coordinator M L :=
  mkCoordinator (manager st) (alloc_ st) (transaction_counter_ st) (not_alive_ st)
    (current_core_ st) s (atom_info_ st) (eg_ st) (store st).

Definition set_atom_info (l : list TxInfo) st : Coordinator M L :=
  mkCoordinator (manager st) (alloc_ st) (transaction_counter_ st) (not_alive_ st)
    (current_core_ st) (abort_transaction_ st) l (eg_ st) (store st).

Definition set_eg (g : bool) st : Coordinator M L :=
  mkCoordinator (manager st) (alloc_ st) (transaction_counter_ st) (not_alive_ st)
    (current_core_ st) (abort_transaction_ st) (atom_info_ st) g (store st).

Definition set_store (s : gmap Ref (Cells L)) st : Coordinator M L :=
  mkCoordinator (manager st) (alloc_ st) (transaction_counter_ st) (not_alive_ st)
    (current_core_ st) (abort_transaction_ st) (atom_info_ st) (eg_ st) s.

(** The vectors behind a reference, and an update through the reference. *)
Definition deref st (h : Ref) : Cells L := store st !!! h.

Definition update (f : Cells L → Cells L) (h : Ref) st : Coordinator M L :=
  set_store (alter f h (store st)) st.

(** [alloc_->allocate<T>(1)] followed by [emplace_front] of the record built
    in place. *)
Definition emplace_front (t : TxInfo) st : Coordinator M L :=
  set_atom_info (t :: atom_info_ st) (set_alloc (alloc_ st + 1) st).

(** Modelled from the spec: [deleteFromRWTable] and [deallocate] of
    transaction_information.hpp, which is not among the sources: "unlink each
    record from its rw_table[offset] (erasing the exact prv ticket); release
    storage via the allocator". *)
Definition deleteFromRWTable (t : TxInfo) st : Coordinator M L :=
  update (set_rw_table (λ rw, alter (λ l, erase l (info_prv t)) (info_offset t) rw))
    (info_cells t) st.

Definition deallocate (t : TxInfo) st : Coordinator M L :=
  set_alloc (alloc_ st - 1) st.

(** [atom_info_->~list(); eg_->~EpochGuard();]: the undo log is left without
    entries and the epoch guard is released. *)
Definition destroy st : Coordinator M L :=
  set_eg false (set_atom_info [] st).

End Updates.

(** ** The SS2PL coordinator (svcc/cc/2pl_table/transaction_coordinator.hpp) *)

Module TwoPL.

(** An element of the [locking] vector, a
    [std::pair<uint64_t, std::set<uint64_t>>]. *)
Definition Lock : Type := (Z * gset Z)%type.

(** The operations of [LockManager] that the coordinator calls.
    svcc/cc/2pl_table/lock_manager.hpp is not among the sources, so the
    coordinator is stated over any lock manager: [lock] receives the
    transaction, the mode, the [locking] vector, the offset and
    [abort_transaction_], and answers whether the request is granted; [unlock]
    is what an undo record calls at commit and abort; [lm_start] and [lm_end]
    are the manager's [start] and [end]. *)
Class LockManager (LM : Type) : Type := {
  lock : LM → Z → bool → list Lock → nat → gset Z → bool * (LM * list Lock * gset Z);
  unlock : LM → Z → list Lock → nat → LM * list Lock;
  lm_start : LM → Z → LM;
  lm_end : LM → Z → LM
}.

Section Coordinator.
Context {LM : Type} {lm : LockManager LM}.

Definition State : Type := Coordinator LM Lock.
Implicit Type st : State.

(** [lock_manager_.lock(transaction, exclusive, locking, offset,
    abort_transaction_)] on the coordinator: the manager, the vector and the
    set are updated in place. *)
Definition lock_request (transaction : Z) (exclusive : bool) (h : Ref) (offset : nat)
    st : bool * State :=
  let '(granted, (lm, lk, aset)) :=
    lock (manager st) transaction exclusive (locking (deref st h)) offset
      (abort_transaction_ st) in
  (granted,
   update (set_locking (λ _, lk)) h (set_abort_transaction aset (set_manager lm st))).

(** Modelled from the spec: [unlock] of transaction_information.hpp, which is
    not among the sources: "SS2PL additionally unlocks each access". *)
Definition info_unlock (t : TxInfo) st : State :=
  let '(lm, lk) :=
    unlock (manager st) (info_transaction t) (locking (deref st (info_cells t)))
      (info_offset t) in
  update (set_locking (λ _, lk)) (info_cells t) (set_manager lm st).

(** [writeValue], with the coordinator's [abort] as [abort_fn]: the template
    parameter [abort] is [is_abort].  The result is [inl] at an early
    return. *)
Definition writeValue_gate (abort_fn : Z → State → State) (is_abort : bool)
    (h : Ref) (offset : nat) (transaction : Z) st : (bool * State) + State :=
  if negb is_abort then
    if decide (transaction ∈ not_alive_ st) then inl (false, st)
    else
      let '(no_abort_needed, st1) := lock_request transaction true h offset st in
      if negb no_abort_needed then inl (false, abort_fn transaction st1)
      else inr st1
  else inr st.

Definition writeValue_with (abort_fn : Z → State → State) (is_abort : bool)
    (writeValue : Z) (h : Ref) (offset : nat) (transaction : Z) st : bool * State :=
  match writeValue_gate abort_fn is_abort h offset transaction st with
  | inl r => r
  | inr st1 =>
      let '(old, col) := replace (column (deref st1 h)) offset writeValue in
      let st2 := update (set_column (λ _, col)) h st1 in
      if negb is_abort then
        (true,
         emplace_front
           (WriteTransactionInformation writeValue old h 0 offset transaction is_abort) st2)
      else (true, st2)
  end.

(** Modelled from the spec: [writeValue] of a write undo record
    (transaction_information.hpp is not among the sources): "re-invoke the
    coordinator's write path with abort=true to restore the old value".  In
    that instantiation the coordinator's [abort] is not reachable. *)
Definition info_writeValue (t : TxInfo) st : State :=
  match t with
  | ReadTransactionInformation _ _ _ _ => st
  | WriteTransactionInformation _ old h _ offset transaction _ =>
      (writeValue_with (λ _ s, s) true old h offset transaction st).2
  end.

(** The first loop of [abort]: the writes of the undo log are inverted, from
    the front of the list. *)
Definition undo_step st (t : TxInfo) : State :=
  if negb (isWriteTransaction t) || isAbort t then st else info_writeValue t st.

(** The loop of [commit] and the second loop of [abort]. *)
Definition release_step st (t : TxInfo) : State :=
  deallocate t (deleteFromRWTable t (info_unlock t st)).

Definition abort (transaction : Z) st : State :=
  let st1 := set_not_alive ({[transaction]} ∪ not_alive_ st) st in
  let st2 := foldl undo_step st1 (atom_info_ st1) in
  let st3 := foldl release_step st2 (atom_info_ st2) in
  destroy st3.

Definition writeValue (is_abort : bool) (writeValue : Z) (h : Ref) (offset : nat)
    (transaction : Z) st : bool * State :=
  writeValue_with abort is_abort writeValue h offset transaction st.

(** [readValue]: the first component of the result is the returned [bool],
    the second the content of the out-parameter, [out] at the call. *)
Definition readValue (out : Z) (h : Ref) (offset : nat) (transaction : Z) st
    : bool * Z * State :=
  if decide (transaction ∈ not_alive_ st) then (false, out, st)
  else
    let info := access transaction false in
    let '(no_abort_needed, st1) := lock_request transaction false h offset st in
    if negb no_abort_needed then (false, out, abort transaction st1)
    else
      let value := column (deref st1 h) !!! offset in
      (true, value,
       emplace_front (ReadTransactionInformation h 0 offset transaction) st1).

(** [read] returns a [uint64_t]: [false] is 0. *)
Definition read (h : Ref) (offset : nat) (transaction : Z) st : Z * State :=
  if decide (transaction ∈ not_alive_ st) then (0, st)
  else
    let info := access transaction false in
    let '(no_abort_needed, st1) := lock_request transaction false h offset st in
    if negb no_abort_needed then (0, abort transaction st1)
    else (1, st1).

Definition readUndo (prv : Z) (h : Ref) (offset : nat) (transaction : Z) st : State :=
  emplace_front (ReadTransactionInformation h 0 offset transaction) st.

(** [commit]: the second component of the result is the content of [oset]
    when the call returns. *)
Definition commit (transaction : Z) (oset : gset Z) st : bool * gset Z * State :=
  if decide (transaction ∈ not_alive_ st) then
    let st1 := set_not_alive (not_alive_ st ∖ {[transaction]}) st in
    let st2 := set_manager (lm_end (manager st1) transaction) st1 in
    (false, abort_transaction_ st2, st2)
  else
    let st1 := foldl release_step st (atom_info_ st) in
    let st2 := destroy st1 in
    let st3 := set_manager (lm_end (manager st2) transaction) st2 in
    (true, oset, st3).

(** [start]: [cpu] is the answer of [sched_getcpu()], stored in the
    [uint8_t current_core_] when that still holds its initial 255. *)
Definition start (cpu : Z) st : Z * State :=
  let tc := (transaction_counter_ st + 1) mod 2 ^ 64 in
  let st1 := set_transaction_counter tc st in
  let st2 :=
    if current_core_ st1 =? 255 then set_current_core (cpu mod 2 ^ 8) st1 else st1 in
  let core := current_core_ st2 in
  let tc := Z.land tc 0x00FFFFFFFFFFFFFF in
  let tc := Z.lor tc (Z.shiftl core 56 mod 2 ^ 64) in
  let st3 := set_atom_info [] st2 in
  let st4 := set_abort_transaction ∅ st3 in
  let st5 := set_eg true st4 in
  let st6 := set_manager (lm_start (manager st5) tc) st5 in
  (tc, st6).

End Coordinator.

End TwoPL.

(** ** The SGT coordinator (svcc/cc/nofalsenegatives/transaction_coordinator.hpp) *)

Module SGT.

(** The operations of [serial::SerializationGraph] that the coordinator calls.
    svcc/cc/nofalsenegatives/serialization_graph.hpp is not among the sources,
    so the coordinator is stated over any graph: [sg_abort] is the graph's
    [abort], which receives [abort_transaction_]. *)
Class SerializationGraph (SG : Type) : Type := {
  needsAbort : SG → Z → bool;
  sg_abort : SG → gset Z → SG * gset Z;
  checkCommited : SG → bool * SG;
  createNode : SG → Z * SG
}.

(** [__sync_bool_compare_and_swap(&var, expected, desired)] on a variable that
    holds [var]: whether the swap took place, and what the variable holds
    afterwards. *)
Definition compare_and_swap (var expected desired : Z) : bool * Z :=
  if var =? expected then (true, desired) else (false, var).

Definition inspect {A : Type} (a : A) : {b : A | a = b} := exist _ a eq_refl.

(** [while(__sync_bool_compare_and_swap(&lockInfo, 0, 1)) {;}] on the local
    variable [lockInfo]: the content of [lockInfo] when the loop is left. *)
Equations? spin (lockInfo : Z) : Z by wf (if lockInfo =? 0 then 1%nat else 0%nat) lt :=
  spin lockInfo with inspect (compare_and_swap lockInfo 0 1) := {
    | exist _ (true, lockInfo') _ := spin lockInfo';
    | exist _ (false, lockInfo') _ := lockInfo' }.
Proof.
  unfold compare_and_swap in *.
  destruct (Z.eqb_spec lockInfo 0); [| discriminate].
  match goal with E : (true, _) = (true, _) |- _ => injection E as <- end.
  simpl. lia.
Qed.

Section Coordinator.
Context {SG : Type} {sg : SerializationGraph SG}.

Definition State : Type := Coordinator SG Z.
Implicit Type st : State.

(** The vector that the SGT coordinator calls [locked]. *)
Definition locked (c : Cells Z) : list Z := locking c.

(** What stands between the lock word and the use of the cell in [readValue],
    [read] and [writeValue]: [locked[offset]] is copied into the local
    [lockInfo], on which the loop runs.  The result is the local variable; the
    vector is only read. *)
Definition acquire (h : Ref) (offset : nat) st : Z :=
  let lockInfo := locked (deref st h) !!! offset in
  spin lockInfo.

(** [__sync_bool_compare_and_swap(&lockInfo, 1, 0)], on the local variable
    again. *)
Definition release (lockInfo : Z) : Z := (compare_and_swap lockInfo 1 0).2.

Definition writeValue_gate (abort_fn : Z → State → State) (is_abort : bool)
    (transaction : Z) st : (bool * State) + State :=
  let not_alive := bool_decide (transaction ∈ not_alive_ st) in
  if negb is_abort && not_alive then inl (false, st)
  else if negb is_abort && needsAbort (manager st) transaction then
    inl (false, abort_fn transaction st)
  else inr st.

(** [writeValue], with the coordinator's [abort] as [abort_fn]: the template
    parameter [abort] is [is_abort]. *)
Definition writeValue_with (abort_fn : Z → State → State) (is_abort : bool)
    (writeValue : Z) (h : Ref) (offset : nat) (transaction : Z) st : bool * State :=
  match writeValue_gate abort_fn is_abort transaction st with
  | inl r => r
  | inr st1 =>
      let lockInfo := acquire h offset st1 in
      let '(old, col) := replace (column (deref st1 h)) offset writeValue in
      let st2 := update (set_column (λ _, col)) h st1 in
      let lockInfo := release lockInfo in
      (true, st2)
  end.

(** Modelled from the spec: [writeValue] of a write undo record
    (transaction_information.hpp is not among the sources): "re-invoke the
    coordinator's write path with abort=true to restore the old value". *)
Definition info_writeValue (t : TxInfo) st : State :=
  match t with
  | ReadTransactionInformation _ _ _ _ => st
  | WriteTransactionInformation _ old h _ offset transaction _ =>
      (writeValue_with (λ _ s, s) true old h offset transaction st).2
  end.

Definition undo_step st (t : TxInfo) : State :=
  if negb (isWriteTransaction t) || isAbort t then st else info_writeValue t st.

Definition release_step st (t : TxInfo) : State :=
  deallocate t (deleteFromRWTable t st).

(** [sg_.abort(abort_transaction_)] on the coordinator. *)
Definition graph_abort st : State :=
  let '(g, aset) := sg_abort (manager st) (abort_transaction_ st) in
  set_abort_transaction aset (set_manager g st).

Definition abort (transaction : Z) st : State :=
  let st1 := set_not_alive ({[transaction]} ∪ not_alive_ st) st in
  let st2 := foldl undo_step st1 (atom_info_ st1) in
  let st3 := graph_abort st2 in
  let st4 := foldl release_step st3 (atom_info_ st3) in
  destroy st4.

Definition writeValue (is_abort : bool) (writeValue : Z) (h : Ref) (offset : nat)
    (transaction : Z) st : bool * State :=
  writeValue_with abort is_abort writeValue h offset transaction st.

(** [readValue]: the returned [bool], the content of the out-parameter ([out]
    at the call) and the coordinator. *)
Definition readValue (out : Z) (h : Ref) (offset : nat) (transaction : Z) st
    : bool * Z * State :=
  if decide (transaction ∈ not_alive_ st) then (false, out, st)
  else if needsAbort (manager st) transaction then (false, out, abort transaction st)
  else
    let lockInfo := acquire h offset st in
    let value := column (deref st h) !!! offset in
    let lockInfo := release lockInfo in
    (true, value, st).

(** [read] returns a [uint64_t]: [false] is 0 and [true] is 1. *)
Definition read (h : Ref) (offset : nat) (transaction : Z) st : Z * State :=
  if decide (transaction ∈ not_alive_ st) then (0, st)
  else if needsAbort (manager st) transaction then (0, abort transaction st)
  else
    let lockInfo := acquire h offset st in
    let lockInfo := release lockInfo in
    (1, st).

(** [lsn_column.atomic_replace(offset, prv)] and a read record with ticket
    [prv - 1], which wraps at 0. *)
Definition readUndo (prv : Z) (h : Ref) (offset : nat) (transaction : Z) st : State :=
  let st1 :=
    update (λ c, mkCells (column c) (<[offset := prv]> (lsn_column c)) (rw_table c)
                   (locking c)) h st in
  emplace_front (ReadTransactionInformation h ((prv - 1) mod 2 ^ 64) offset transaction) st1.

(** The loop of [commit].  [all_pending_transactions_commited] is the guard;
    one unit of [fuel] pays for one run of the body, and [None] is a loop that
    is still spinning when the fuel is spent. *)
Fixpoint commit_loop (fuel : nat) (all_pending_transactions_commited : bool)
    (transaction : Z) (oset : gset Z) st : option (bool * gset Z * State) :=
  if all_pending_transactions_commited then Some (true, oset, st)
  else
    match fuel with
    | O => None
    | S fuel' =>
        if decide (transaction ∈ not_alive_ st) then
          let st1 := set_not_alive (not_alive_ st ∖ {[transaction]}) st in
          Some (false, abort_transaction_ st1, st1)
        else if needsAbort (manager st) transaction then
          let st1 := abort transaction st in
          let st2 := set_not_alive (not_alive_ st1 ∖ {[transaction]}) st1 in
          Some (false, abort_transaction_ st2, st2)
        else
          let '(all, g) := checkCommited (manager st) in
          let st1 := set_manager g st in
          let st2 := if all then foldl release_step st1 (atom_info_ st1) else st1 in
          commit_loop fuel' all transaction oset st2
    end.

(** [commit]: the guard is initialised to [true]. *)
Definition commit (fuel : nat) (transaction : Z) (oset : gset Z) st
    : option (bool * gset Z * State) :=
  let all_pending_transactions_commited := true in
  commit_loop fuel all_pending_transactions_commited transaction oset st.

Definition start (cpu : Z) st : Z * State :=
  let tc := (transaction_counter_ st + 1) mod 2 ^ 64 in
  let st1 := set_transaction_counter tc st in
  let st2 :=
    if current_core_ st1 =? 255 then set_current_core (cpu mod 2 ^ 8) st1 else st1 in
  let core := current_core_ st2 in
  let tc := Z.land tc 0x00FFFFFFFFFFFFFF in
  let tc := Z.lor tc (Z.shiftl core 56 mod 2 ^ 64) in
  let st3 := set_atom_info [] st2 in
  let st4 := set_abort_transaction ∅ st3 in
  let st5 := set_eg true st4 in
  let '(node, g) := createNode (manager st5) in
  (node, set_manager g st5).

End Coordinator.

End SGT.

(** ** Managers for the examples *)

(** Two lock managers to run the SS2PL coordinator on concrete inputs.  The
    first answers as a manager does on a cell that nobody holds ("Compatible
    request: grant, increment holder_count"), the second as one that finds the
    request incompatible and the requester on the losing side ("the request is
    denied and the requester self-aborts"). *)
Definition granting : TwoPL.LockManager unit := {|
  TwoPL.lock := λ lm _ _ lk offset aset,
    (true, (lm, alter (λ p, ((p.1 + 1) mod 2 ^ 64, p.2)) offset lk, aset));
  TwoPL.unlock := λ lm _ lk offset,
    (lm, alter (λ p, ((p.1 - 1) mod 2 ^ 64, p.2)) offset lk);
  TwoPL.lm_start := λ lm _, lm;
  TwoPL.lm_end := λ lm _, lm
|}.

Definition denying : TwoPL.LockManager unit := {|
  TwoPL.lock := λ lm _ _ lk _ aset, (false, (lm, lk, aset));
  TwoPL.unlock := λ lm _ lk _, (lm, lk);
  TwoPL.lm_start := λ lm _, lm;
  TwoPL.lm_end := λ lm _, lm
|}.

(** A serialization graph to run the SGT coordinator on concrete inputs: its
    state is the set of the transactions whose node has [abort_needed] set and
    the number of nodes created; no transaction is pending. *)
Definition flagged : SGT.SerializationGraph (gset Z * Z) := {|
  SGT.needsAbort := λ g transaction, bool_decide (transaction ∈ g.1);
  SGT.sg_abort := λ g aset, (g, aset);
  SGT.checkCommited := λ g, (true, g);
  SGT.createNode := λ g, ((g.2 + 1) mod 2 ^ 64, (g.1, (g.2 + 1) mod 2 ^ 64))
|}.

(** One column of four cells, all 0, under reference 0, as in the scenarios of
    the specification, and a coordinator on which no transaction has run. *)
Definition four_cells {L : Type} (free : L) : Cells L :=
  mkCells [0; 0; 0; 0] [0; 0; 0; 0]
    [mkRWList 0 []; mkRWList 0 []; mkRWList 0 []; mkRWList 0 []]
    [free; free; free; free].

Definition fresh {M L : Type} (m : M) (free : L) : Coordinator M L :=
  mkCoordinator m 0 0 ∅ 255 ∅ [] false {[ 0%nat := four_cells free ]}.

Definition fresh_2pl : Coordinator unit TwoPL.Lock := fresh tt (0, ∅).

Definition fresh_sgt : Coordinator (gset Z * Z) Z := fresh (∅, 0) 0.

(** ** Inputs of the examples *)

(** A coordinator of the SGT strategy on which transaction 5 was aborted with
    transaction 7 as cascaded victim. *)
Definition sgt_after_abort : Coordinator (gset Z * Z) Z :=
  set_abort_transaction {[7]} (set_not_alive {[5]} fresh_sgt).

(** A cell whose lock word is free, and the same cell with the word held by
    another thread. *)
Definition sgt_free : Coordinator (gset Z * Z) Z :=
  set_store {[ 0%nat := mkCells [7; 0; 0; 0] [0; 0; 0; 0]
                          [mkRWList 0 []; mkRWList 0 []; mkRWList 0 []; mkRWList 0 []]
                          [0; 0; 0; 0] ]} fresh_sgt.

Definition sgt_held : Coordinator (gset Z * Z) Z :=
  update (set_locking (λ lk, <[0%nat := 1]> lk)) 0%nat sgt_free.

(** ** Notions used in the statements *)

(** [keeps proj st st']: behind every reference, [st'] has the projection
    [proj] of the vectors that [st] has. *)
Definition keeps {M L A : Type} (proj : Cells L → A) (st st' : Coordinator M L) : Prop :=
  ∀ h, proj (deref st' h) = proj (deref st h).

(** The answer of [lock_manager_.lock] to the request of an operation. *)
Definition lock_answer {LM : Type} {lm : TwoPL.LockManager LM} (tx : Z) (exclusive : bool)
    (h : Ref) (offset : nat) (st : @TwoPL.State LM) : bool :=
  (TwoPL.lock (manager st) tx exclusive (locking (deref st h)) offset
     (abort_transaction_ st)).1.

(** The coordinator state that two calls are compared on: [not_alive_],
    [abort_transaction_], the undo log [atom_info_] and the locks (the manager
    and the lock vectors). *)
Definition same_coordinator_state {M L : Type} (st st' : Coordinator M L) : Prop :=
  not_alive_ st = not_alive_ st' ∧
  abort_transaction_ st = abort_transaction_ st' ∧
  atom_info_ st = atom_info_ st' ∧
  manager st = manager st' ∧
  ∀ h, locking (deref st h) = locking (deref st' h).

(** The same without the undo log. *)
Definition same_sets_and_locks {M L : Type} (st st' : Coordinator M L) : Prop :=
  not_alive_ st = not_alive_ st' ∧
  abort_transaction_ st = abort_transaction_ st' ∧
  manager st = manager st' ∧
  ∀ h, locking (deref st h) = locking (deref st' h).

#[global] Instance RWList_inhabited : Inhabited RWList := populate (mkRWList 0 []).

(** What an operation on the cell [offset] of [h] would leave behind had it
    taken a ticket for the access record [a] and released it: a ticket drawn
    from the list of the cell and [prv + 1] in [lsn_column[offset]]. *)
Definition ticket_protocol {M L : Type} (a : Z) (h : Ref) (offset : nat)
    (st st' : Coordinator M L) : Prop :=
  let '(prv, l) := push_front (rw_table (deref st h) !!! offset) a in
  issued (rw_table (deref st' h) !!! offset) = issued l ∧
  lsn_column (deref st' h) !!! offset = (prv + 1) mod 2 ^ 64.

(** What the replay of one undo record does to the column behind [h']. *)
Definition undo_column (h' : Ref) (col : list Z) (t : TxInfo) : list Z :=
  match t with
  | ReadTransactionInformation _ _ _ _ => col
  | WriteTransactionInformation _ old h _ offset _ a =>
      if a then col else if decide (h = h') then <[offset := old]> col else col
  end.

(** The operations that a client issues on behalf of a transaction between
    [start] and the terminal call. *)
Inductive Op : Type :=
| OpReadValue (out : Z) (h : Ref) (offset : nat)
| OpRead (h : Ref) (offset : nat)
| OpReadUndo (prv : Z) (h : Ref) (offset : nat)
| OpWriteValue (v : Z) (h : Ref) (offset : nat).




(** One operation of the client, and a sequence of them, on the SGT
    coordinator. *)
Definition sgt_step {SG : Type} {sg : SGT.SerializationGraph SG} (tx : Z)
    (st : @SGT.State SG) (op : Op) : SGT.State :=
  match op with
  | OpReadValue out h offset => (SGT.readValue out h offset tx st).2
  | OpRead h offset => (SGT.read h offset tx st).2
  | OpReadUndo prv h offset => SGT.readUndo prv h offset tx st
  | OpWriteValue v h offset => (SGT.writeValue false v h offset tx st).2
  end.

Definition sgt_run {SG : Type} {sg : SGT.SerializationGraph SG} (tx : Z) (ops : list Op)
    (st : @SGT.State SG) : SGT.State :=
  foldl (sgt_step tx) st ops.

Definition is_readUndo (op : Op) : bool :=
  match op with
  | OpReadUndo _ _ _ => true
  | _ => false
  end.


(** * Properties *)

(** ** The access-record encoding *)

Section AccessRecord.

Lemma TX_MASK_ones : TX_MASK = Z.ones 63.
Proof. reflexivity. Qed.

Lemma WRITE_BIT_pow : WRITE_BIT = 2 ^ 63.
Proof. reflexivity. Qed.

Lemma mask_small (tx : Z) : 0 <= tx < 2 ^ 63 -> Z.land TX_MASK tx = tx.
Proof.
  intros Htx. rewrite Z.land_comm, TX_MASK_ones, Z.land_ones by lia.
  apply Z.mod_small; exact Htx.
Qed.

Lemma small_high_bits (tx i : Z) :
  0 <= tx < 2 ^ 63 -> 63 <= i -> Z.testbit tx i = false.
Proof.
  intros Htx Hi.
  destruct (Z.eq_dec tx 0) as [-> | Hne]; [apply Z.bits_0 |].
  apply Z.bits_above_log2; [lia |].
  assert (Z.log2 tx < 63) by (apply Z.log2_lt_pow2; lia).
  lia.
Qed.

(** Setting bit 63 of a 63-bit value adds [2 ^ 63] to it. *)
Lemma write_bit_lor (tx : Z) :
  0 <= tx < 2 ^ 63 -> Z.lor WRITE_BIT tx = 2 ^ 63 + tx.
Proof.
  intros Htx. rewrite WRITE_BIT_pow.
  rewrite <- Z.add_nocarry_lor; [reflexivity |].
  apply Z.bits_inj'; intros i Hi.
  rewrite Z.land_spec, Z.bits_0, Z.pow2_bits_eqb by lia.
  destruct (Z.eqb_spec 63 i) as [<- | Hne]; [| reflexivity].
  now rewrite (small_high_bits tx 63) by lia.
Qed.

Lemma access_uint64 (tx : Z) (rw : bool) :
  0 <= tx < 2 ^ 63 -> uint64 (access tx rw).
Proof.
  intros Htx. unfold uint64, access. destruct rw.
  - rewrite write_bit_lor by exact Htx. lia.
  - rewrite mask_small by exact Htx. lia.
Qed.

End AccessRecord.

(** C10. For every transaction id [tx < 2^63] and every mode flag [m],
    [find (access tx m) = (tx, m)]: the encoding with the mode in the top bit
    and the transaction id in the low 63 bits is reversible. *)
Theorem find_access (tx : Z) (m : bool) :
  0 <= tx < 2 ^ 63 -> find (access tx m) = (tx, m).
Proof.
  intros Htx. unfold find, access. destruct m.
  - rewrite write_bit_lor by exact Htx. f_equal.
    + rewrite Z.land_comm, TX_MASK_ones, Z.land_ones by lia.
      rewrite Z.add_comm, <- (Z.mul_1_l (2 ^ 63)), Z.mod_add by lia.
      apply Z.mod_small; exact Htx.
    + rewrite Z.shiftr_div_pow2 by lia.
      rewrite Z.add_comm, <- (Z.mul_1_l (2 ^ 63)), Z.div_add by lia.
      rewrite Z.div_small by exact Htx. reflexivity.
  - rewrite !(mask_small tx) by exact Htx. f_equal.
    rewrite Z.shiftr_div_pow2 by lia.
    rewrite Z.div_small by exact Htx. reflexivity.
Qed.

Lemma find_access_witness :
  0 <= 0x0100000000000007 < 2 ^ 63 /\
  find (access 0x0100000000000007 true) = (0x0100000000000007, true).
Proof.
  split; [lia | apply (find_access 0x0100000000000007 true); lia].
Defined.

(** ** What an update through a reference touches *)

Section Frame.
Context {M L : Type}.
Implicit Type st : Coordinator M L.

Lemma deref_update (f : Cells L → Cells L) (h h' : Ref) st :
  deref (update f h st) h' =
  if decide (h = h') then
    match store st !! h with Some c => f c | None => deref st h' end
  else deref st h'.
Proof.
  unfold deref, update; simpl.
  rewrite !lookup_total_alt, lookup_alter.
  destruct (decide (h = h')) as [<- | Hne]; [| reflexivity].
  destruct (store st !! h); reflexivity.
Qed.

(** A projection of the vectors that [f] leaves alone is left alone by the
    update. *)
Lemma deref_update_frame {A : Type} (proj : Cells L → A) (f : Cells L → Cells L)
    (h h' : Ref) st :
  (∀ c, proj (f c) = proj c) →
  proj (deref (update f h st) h') = proj (deref st h').
Proof.
  intros Hf. rewrite deref_update.
  destruct (decide (h = h')) as [<- | Hne]; [| reflexivity].
  unfold deref. rewrite lookup_total_alt.
  destruct (store st !! h); simpl; [apply Hf | reflexivity].
Qed.

(** The column after a replacement, also behind a reference that the store
    does not know: the empty column stays empty. *)
Lemma column_update_replace (h : Ref) (offset : nat) (v : Z) st :
  column (deref (update (set_column (λ _, (replace (column (deref st h)) offset v).2)) h st) h)
  = <[offset := v]> (column (deref st h)).
Proof.
  rewrite deref_update, decide_True by reflexivity.
  unfold deref. rewrite lookup_total_alt.
  destruct (store st !! h); reflexivity.
Qed.

End Frame.

(** ** Operations of a transaction that is not alive, and undo replay *)

Section EarlyReturn.
Context {LM : Type} {lm : TwoPL.LockManager LM}.
Context {SG : Type} {sg : SGT.SerializationGraph SG}.

(** [writeValue<abort = true>] does not reach the coordinator's [abort]. *)
Lemma twopl_writeValue_replay (f : Z → TwoPL.State → TwoPL.State) (v : Z) (h : Ref)
    (offset : nat) (tx : Z) (st : @TwoPL.State LM) :
  TwoPL.writeValue_with f true v h offset tx st =
  (true, update (set_column (λ _, (replace (column (deref st h)) offset v).2)) h st).
Proof. reflexivity. Qed.

Lemma sgt_writeValue_replay (f : Z → SGT.State → SGT.State) (v : Z) (h : Ref)
    (offset : nat) (tx : Z) (st : @SGT.State SG) :
  SGT.writeValue_with f true v h offset tx st =
  (true, update (set_column (λ _, (replace (column (deref st h)) offset v).2)) h st).
Proof. reflexivity. Qed.

(** C6. For every [tx] in [not_alive_], [readValue], [read] and [writeValue]
    (instantiated with [abort = false]) return [false] (0 for [read]) at once,
    in both coordinators: the out-parameter keeps its content and the whole
    coordinator, with the column values, [rw_table], the lock state and the
    undo log [atom_info_], is the one of the call. *)
Theorem not_alive_operations_fail (tx : Z) (out v : Z) (h : Ref) (offset : nat)
    (st2 : @TwoPL.State LM) (st : @SGT.State SG) :
  tx ∈ not_alive_ st2 →
  tx ∈ not_alive_ st →
  TwoPL.readValue out h offset tx st2 = (false, out, st2) ∧
  TwoPL.read h offset tx st2 = (0, st2) ∧
  TwoPL.writeValue false v h offset tx st2 = (false, st2) ∧
  SGT.readValue out h offset tx st = (false, out, st) ∧
  SGT.read h offset tx st = (0, st) ∧
  SGT.writeValue false v h offset tx st = (false, st).
Proof.
  intros Hdead2 Hdead.
  unfold TwoPL.readValue, TwoPL.read, TwoPL.writeValue, TwoPL.writeValue_with,
    TwoPL.writeValue_gate, SGT.readValue, SGT.read, SGT.writeValue,
    SGT.writeValue_with, SGT.writeValue_gate.
  rewrite !(decide_True _ _ Hdead2), !(decide_True _ _ Hdead).
  rewrite (bool_decide_eq_true_2 _ Hdead). simpl.
  repeat split; reflexivity.
Qed.

(** C7. In both coordinators [writeValue] instantiated with [abort = true]
    returns [true] and replaces [column[offset]] with the new value, whether
    or not the transaction is in [not_alive_]; the undo log, the sets, the
    manager and the allocator are those of the call, and so is every vector
    other than the column written. *)
Theorem writeValue_replay_only_replaces (tx : Z) (v : Z) (h : Ref) (offset : nat)
    (st2 : @TwoPL.State LM) (st : @SGT.State SG) :
  let r2 := TwoPL.writeValue true v h offset tx st2 in
  let r := SGT.writeValue true v h offset tx st in
  (r2.1 = true ∧
   column (deref r2.2 h) = <[offset := v]> (column (deref st2 h)) ∧
   r2.2 = set_store (store r2.2) st2 ∧
   (∀ h', h' ≠ h → deref r2.2 h' = deref st2 h') ∧
   lsn_column (deref r2.2 h) = lsn_column (deref st2 h) ∧
   rw_table (deref r2.2 h) = rw_table (deref st2 h) ∧
   locking (deref r2.2 h) = locking (deref st2 h)) ∧
  (r.1 = true ∧
   column (deref r.2 h) = <[offset := v]> (column (deref st h)) ∧
   r.2 = set_store (store r.2) st ∧
   (∀ h', h' ≠ h → deref r.2 h' = deref st h') ∧
   lsn_column (deref r.2 h) = lsn_column (deref st h) ∧
   rw_table (deref r.2 h) = rw_table (deref st h) ∧
   locking (deref r.2 h) = locking (deref st h)).
Proof.
  intros r2 r. subst r2 r. unfold TwoPL.writeValue, SGT.writeValue.
  rewrite twopl_writeValue_replay, sgt_writeValue_replay. simpl.
  split.
  - split; [reflexivity |]. split; [apply column_update_replace |].
    split; [reflexivity |]. split.
    + intros h' Hne. rewrite deref_update, decide_False by congruence. reflexivity.
    + repeat split; apply deref_update_frame; reflexivity.
  - split; [reflexivity |]. split; [apply column_update_replace |].
    split; [reflexivity |]. split.
    + intros h' Hne. rewrite deref_update, decide_False by congruence. reflexivity.
    + repeat split; apply deref_update_frame; reflexivity.
Qed.

End EarlyReturn.

Lemma not_alive_operations_fail_witness :
  let st2 := set_not_alive {[5]} fresh_2pl in
  let st := set_not_alive {[5]} fresh_sgt in
  TwoPL.readValue (lm := granting) 9 0%nat 1%nat 5 st2 = (false, 9, st2) ∧
  TwoPL.read (lm := granting) 0%nat 1%nat 5 st2 = (0, st2) ∧
  TwoPL.writeValue (lm := granting) false 3 0%nat 1%nat 5 st2 = (false, st2) ∧
  SGT.readValue (sg := flagged) 9 0%nat 1%nat 5 st = (false, 9, st) ∧
  SGT.read (sg := flagged) 0%nat 1%nat 5 st = (0, st) ∧
  SGT.writeValue (sg := flagged) false 3 0%nat 1%nat 5 st = (false, st).
Proof.
  apply (not_alive_operations_fail (lm := granting) (sg := flagged) 5 9 3 0%nat 1%nat
           (set_not_alive {[5]} fresh_2pl) (set_not_alive {[5]} fresh_sgt));
    vm_compute; reflexivity.
Defined.

(** ** The commit of the SGT coordinator *)

Section SGTCommit.
Context {SG : Type} {sg : SGT.SerializationGraph SG}.

(** C4. In the SGT coordinator [commit] returns [true] for every transaction
    and every state, also when the transaction is in [not_alive_] or its node
    needs an abort: the guard of the barrier loop is initialised to [true], so
    the body never runs, whatever the fuel.  [oset] keeps its content, the
    transaction stays in [not_alive_] if it was there, and the undo records
    are neither unlinked nor given back: the coordinator is the one of the
    call. *)
Theorem sgt_commit_returns_true (fuel : nat) (tx : Z) (oset : gset Z)
    (st : @SGT.State SG) :
  SGT.commit fuel tx oset st = Some (true, oset, st).
Proof. destruct fuel; reflexivity. Qed.

(** The same call with the guard initialised to [false] would take the
    branch of a dead transaction. *)
Lemma sgt_commit_loop_dead (fuel : nat) (tx : Z) (oset : gset Z) (st : @SGT.State SG) :
  tx ∈ not_alive_ st →
  SGT.commit_loop (S fuel) false tx oset st =
  Some (false, abort_transaction_ st, set_not_alive (not_alive_ st ∖ {[tx]}) st).
Proof. intros Hdead. simpl. rewrite decide_True by exact Hdead. reflexivity. Qed.

End SGTCommit.

(** ** The commit of a dead transaction *)

Section TwoPLCommit.
Context {LM : Type} {lm : TwoPL.LockManager LM}.


End TwoPLCommit.

(** C1 on the code of the SGT coordinator: with transaction 5 in [not_alive_]
    and 7 in [abort_transaction_], [commit 5] returns [true], leaves [oset]
    empty and keeps 5 in [not_alive_], where the claim has [false], [oset]
    equal to [abort_transaction_] and 5 removed. *)
Theorem sgt_commit_dead_returns_true :
  5 ∈ not_alive_ sgt_after_abort ∧
  abort_transaction_ sgt_after_abort = {[7]} ∧
  ∀ fuel : nat,
    SGT.commit (sg := flagged) fuel 5 ∅ sgt_after_abort = Some (true, ∅, sgt_after_abort).
Proof.
  split; [vm_compute; reflexivity |]. split; [reflexivity |].
  intros fuel. destruct fuel; reflexivity.
Qed.

(** ** Vectors that an operation leaves alone *)

Section Keeps.
Context {M L A : Type} (proj : Cells L → A).
Implicit Type st : Coordinator M L.

Lemma keeps_refl st : keeps proj st st.
Proof. intros h. reflexivity. Qed.

Lemma keeps_trans st1 st2 st3 : keeps proj st1 st2 → keeps proj st2 st3 → keeps proj st1 st3.
Proof. intros H12 H23 h. rewrite H23. apply H12. Qed.

Lemma keeps_store st st' : store st' = store st → keeps proj st st'.
Proof. intros Hs h. unfold deref. rewrite Hs. reflexivity. Qed.

Lemma keeps_update (f : Cells L → Cells L) (h : Ref) st :
  (∀ c, proj (f c) = proj c) → keeps proj st (update f h st).
Proof. intros Hf h'. apply deref_update_frame. exact Hf. Qed.

Lemma keeps_foldl {B : Type} (step : Coordinator M L → B → Coordinator M L) (l : list B) :
  (∀ s t, keeps proj s (step s t)) → ∀ st, keeps proj st (foldl step st l).
Proof.
  intros Hstep. induction l as [| t l IH]; intros st; simpl.
  - apply keeps_refl.
  - eapply keeps_trans; [apply Hstep | apply IH].
Qed.

Lemma keeps_deleteFromRWTable (t : TxInfo) st :
  (∀ c f, proj (set_rw_table f c) = proj c) → keeps proj st (deleteFromRWTable t st).
Proof. intros Hp. apply keeps_update. intros c. apply Hp. Qed.

Lemma keeps_release (t : TxInfo) st :
  (∀ c f, proj (set_rw_table f c) = proj c) →
  keeps proj st (deallocate t (deleteFromRWTable t st)).
Proof.
  intros Hp. eapply keeps_trans; [apply keeps_deleteFromRWTable, Hp |].
  apply keeps_store. reflexivity.
Qed.

End Keeps.

(** ** The lock word of the SGT coordinator *)

Section SGTLock.
Context {SG : Type} {sg : SGT.SerializationGraph SG}.
Implicit Type st : @SGT.State SG.

(** The loop on the local copy is left after at most two swaps: a copy that
    is 0 becomes 1, any other copy is kept. *)
Lemma spin_spec (lockInfo : Z) :
  SGT.spin lockInfo = if lockInfo =? 0 then 1 else lockInfo.
Proof.
  funelim (SGT.spin lockInfo);
    match goal with E : SGT.compare_and_swap _ 0 1 = (_, _) |- _ =>
      pose proof E as Hcas; unfold SGT.compare_and_swap in Hcas; revert Hcas
    end;
    case (Z.eqb_spec lockInfo 0); intros Hz Hcas; try discriminate;
    injection Hcas as Hcas; subst.
  - match goal with IH : SGT.spin 1 = _ |- _ => rewrite IH end. reflexivity.
  - congruence.
Qed.

Lemma sgt_undo_step_keeps {A : Type} (proj : Cells Z → A) st (t : TxInfo) :
  (∀ c f, proj (set_column f c) = proj c) → keeps proj st (SGT.undo_step st t).
Proof.
  intros Hp. unfold SGT.undo_step.
  destruct (negb (isWriteTransaction t) || isAbort t); [apply keeps_refl |].
  destruct t as [| new old h prv offset tx a]; simpl; [apply keeps_refl |].
  apply keeps_update. intros c. apply Hp.
Qed.

Lemma sgt_graph_abort_store st : store (SGT.graph_abort st) = store st.
Proof. unfold SGT.graph_abort. destruct (SGT.sg_abort _ _). reflexivity. Qed.

(** [abort] writes columns and unlinks records of [rw_table]; [lsn_column]
    and [locked] are left alone. *)
Lemma sgt_abort_keeps {A : Type} (proj : Cells Z → A) (tx : Z) st :
  (∀ c f, proj (set_column f c) = proj c) →
  (∀ c f, proj (set_rw_table f c) = proj c) →
  keeps proj st (SGT.abort tx st).
Proof.
  intros Hc Hrw. unfold SGT.abort.
  eapply keeps_trans; [| apply keeps_store; reflexivity].
  eapply keeps_trans;
    [| apply keeps_foldl; intros s t; unfold SGT.release_step; apply keeps_release, Hrw].
  eapply keeps_trans; [| apply keeps_store, sgt_graph_abort_store].
  eapply keeps_trans; [| apply keeps_foldl; intros s t; apply sgt_undo_step_keeps, Hc].
  apply keeps_store. reflexivity.
Qed.

(** No operation of the SGT coordinator stores into [locked]: whatever the
    word of a cell holds at the call, it holds at the return. *)
Lemma sgt_operations_keep_locked (out v : Z) (is_abort : bool) (h : Ref) (offset : nat)
    (tx : Z) st :
  keeps SGT.locked st (SGT.readValue out h offset tx st).2 ∧
  keeps SGT.locked st (SGT.read h offset tx st).2 ∧
  keeps SGT.locked st (SGT.writeValue is_abort v h offset tx st).2.
Proof.
  assert (Habort : keeps SGT.locked st (SGT.abort tx st))
    by (apply sgt_abort_keeps; reflexivity).
  unfold SGT.readValue, SGT.read, SGT.writeValue, SGT.writeValue_with,
    SGT.writeValue_gate.
  split; [| split].
  - destruct (decide _); [apply keeps_refl |].
    destruct (SGT.needsAbort _ _); [exact Habort | apply keeps_refl].
  - destruct (decide _); [apply keeps_refl |].
    destruct (SGT.needsAbort _ _); [exact Habort | apply keeps_refl].
  - destruct (negb is_abort && bool_decide _); [apply keeps_refl |].
    destruct (negb is_abort && SGT.needsAbort _ _); [exact Habort |].
    simpl. apply keeps_update. reflexivity.
Qed.

End SGTLock.

(** C5 on the code of the SGT coordinator.  On a free cell the loop sets the
    local copy of the word to 1 and [readValue] returns with the vector
    [locked] as it was, the word never having been 1; on a cell whose word is
    held, [readValue], [read] and [writeValue] do not wait: they use the cell
    and return with the word still 1, where the claim has them wait for 0,
    hold the word at 1 during the access and leave it at 0. *)
Theorem sgt_lock_word_never_written :
  (SGT.locked (deref sgt_free 0%nat) !!! 0%nat = 0 ∧
   SGT.acquire 0%nat 0%nat sgt_free = 1 ∧
   SGT.readValue (sg := flagged) 9 0%nat 0%nat 1 sgt_free = (true, 7, sgt_free)) ∧
  (SGT.locked (deref sgt_held 0%nat) !!! 0%nat = 1 ∧
   SGT.readValue (sg := flagged) 9 0%nat 0%nat 1 sgt_held = (true, 7, sgt_held) ∧
   SGT.read (sg := flagged) 0%nat 0%nat 1 sgt_held = (1, sgt_held) ∧
   (SGT.writeValue (sg := flagged) false 3 0%nat 0%nat 1 sgt_held).1 = true ∧
   column (deref (SGT.writeValue (sg := flagged) false 3 0%nat 0%nat 1 sgt_held).2 0%nat)
     = [3; 0; 0; 0] ∧
   SGT.locked (deref (SGT.writeValue (sg := flagged) false 3 0%nat 0%nat 1 sgt_held).2 0%nat)
     = [1; 0; 0; 0]).
Proof. vm_compute. repeat split; reflexivity. Qed.

(** ** Grant and denial in the SS2PL coordinator *)

Section TwoPLLock.
Context {LM : Type} {lm : TwoPL.LockManager LM}.
Implicit Type st : @TwoPL.State LM.

Lemma lock_request_answer (tx : Z) (exclusive : bool) (h : Ref) (offset : nat) st :
  (TwoPL.lock_request tx exclusive h offset st).1 = lock_answer tx exclusive h offset st.
Proof.
  unfold TwoPL.lock_request, lock_answer.
  destruct (TwoPL.lock _ _ _ _ _ _) as [granted [[lm' lk] aset]]. reflexivity.
Qed.

(** A lock request touches the manager, the [locking] vector and
    [abort_transaction_]. *)
Lemma lock_request_fields (tx : Z) (exclusive : bool) (h : Ref) (offset : nat) st :
  let st1 := (TwoPL.lock_request tx exclusive h offset st).2 in
  atom_info_ st1 = atom_info_ st ∧ not_alive_ st1 = not_alive_ st ∧
  alloc_ st1 = alloc_ st ∧ eg_ st1 = eg_ st.
Proof.
  unfold TwoPL.lock_request.
  destruct (TwoPL.lock _ _ _ _ _ _) as [granted [[lm' lk] aset]]. simpl. auto.
Qed.

Lemma lock_request_keeps {A : Type} (proj : Cells TwoPL.Lock → A) (tx : Z)
    (exclusive : bool) (h : Ref) (offset : nat) st :
  (∀ c f, proj (set_locking f c) = proj c) →
  keeps proj st (TwoPL.lock_request tx exclusive h offset st).2.
Proof.
  intros Hp. unfold TwoPL.lock_request.
  destruct (TwoPL.lock _ _ _ _ _ _) as [granted [[lm' lk] aset]]. simpl.
  eapply keeps_trans; [| apply keeps_update; intros c; apply Hp].
  apply keeps_store. reflexivity.
Qed.

(** C8. In the SS2PL coordinator, for every [readValue] and [writeValue] of a
    transaction that is alive: if [lock_manager_.lock] grants the request, an
    undo entry that records the access is prepended to [atom_info_] and the
    operation returns [true]; if it denies the request, the coordinator calls
    [abort] on the transaction and returns [false]. *)
Theorem twopl_grant_records_denial_aborts (tx : Z) (out v : Z) (h : Ref)
    (offset : nat) st :
  tx ∉ not_alive_ st →
  (if lock_answer tx false h offset st then
     ∃ value st',
       TwoPL.readValue out h offset tx st = (true, value, st') ∧
       atom_info_ st' = ReadTransactionInformation h 0 offset tx :: atom_info_ st
   else
     TwoPL.readValue out h offset tx st =
     (false, out, TwoPL.abort tx (TwoPL.lock_request tx false h offset st).2)) ∧
  (if lock_answer tx true h offset st then
     ∃ old st',
       TwoPL.writeValue false v h offset tx st = (true, st') ∧
       atom_info_ st' =
         WriteTransactionInformation v old h 0 offset tx false :: atom_info_ st
   else
     TwoPL.writeValue false v h offset tx st =
     (false, TwoPL.abort tx (TwoPL.lock_request tx true h offset st).2)).
Proof.
  intros Halive. split.
  - rewrite <- lock_request_answer.
    pose proof (lock_request_fields tx false h offset st) as Hf.
    unfold TwoPL.readValue. rewrite decide_False by exact Halive.
    destruct (TwoPL.lock_request tx false h offset st) as [granted st1].
    simpl in *. destruct granted; simpl; [| reflexivity].
    eexists _, _. split; [reflexivity |]. simpl.
    destruct Hf as (-> & _). reflexivity.
  - rewrite <- lock_request_answer.
    pose proof (lock_request_fields tx true h offset st) as Hf.
    unfold TwoPL.writeValue, TwoPL.writeValue_with, TwoPL.writeValue_gate.
    simpl. rewrite decide_False by exact Halive.
    destruct (TwoPL.lock_request tx true h offset st) as [granted st1].
    simpl in *. destruct granted; simpl; [| reflexivity].
    eexists _, _. split; [reflexivity |]. simpl.
    destruct Hf as (-> & _). reflexivity.
Qed.

End TwoPLLock.

(** The denial path on a manager that denies: [readValue] and [writeValue]
    return [false] and leave the transaction in [not_alive_]. *)
Example twopl_denial_aborts :
  let rv := TwoPL.readValue (lm := denying) 9 0%nat 2%nat 1 fresh_2pl in
  let w := TwoPL.writeValue (lm := denying) false 3 0%nat 2%nat 1 fresh_2pl in
  rv.1 = (false, 9) ∧ 1 ∈ not_alive_ rv.2 ∧ atom_info_ rv.2 = [] ∧
  w.1 = false ∧ 1 ∈ not_alive_ w.2 ∧ column (deref w.2 0%nat) = [0; 0; 0; 0].
Proof. vm_compute. repeat split; reflexivity. Qed.

Lemma twopl_grant_records_denial_aborts_witness :
  (1 ∉ not_alive_ fresh_2pl) ∧
  lock_answer (lm := granting) 1 false 0%nat 2%nat fresh_2pl = true ∧
  lock_answer (lm := granting) 1 true 0%nat 2%nat fresh_2pl = true ∧
  (∃ value st',
     TwoPL.readValue (lm := granting) 9 0%nat 2%nat 1 fresh_2pl = (true, value, st') ∧
     atom_info_ st' = [ReadTransactionInformation 0%nat 0 2%nat 1]) ∧
  (∃ old st',
     TwoPL.writeValue (lm := granting) false 3 0%nat 2%nat 1 fresh_2pl = (true, st') ∧
     atom_info_ st' = [WriteTransactionInformation 3 old 0%nat 0 2%nat 1 false]).
Proof.
  assert (Halive : 1 ∉ not_alive_ fresh_2pl) by apply not_elem_of_empty.
  split; [exact Halive |]. split; [reflexivity |]. split; [reflexivity |].
  exact (twopl_grant_records_denial_aborts (lm := granting) 1 9 3 0%nat 2%nat
           fresh_2pl Halive).
Defined.

(** ** [read] and [readValue] *)

Section ReadEntryPoints.
Context {LM : Type} {lm : TwoPL.LockManager LM}.
Context {SG : Type} {sg : SGT.SerializationGraph SG}.

(** In the SS2PL coordinator [readValue] is [read] followed, on success, by
    the bookkeeping of [readUndo]. *)
Lemma twopl_readValue_read (out prv : Z) (h : Ref) (offset : nat) (tx : Z)
    (st : @TwoPL.State LM) :
  let r := TwoPL.read h offset tx st in
  let rv := TwoPL.readValue out h offset tx st in
  rv.1.1 = negb (r.1 =? 0) ∧
  rv.2 = if rv.1.1 then TwoPL.readUndo prv h offset tx r.2 else r.2.
Proof.
  unfold TwoPL.read, TwoPL.readValue, TwoPL.readUndo.
  destruct (decide (tx ∈ not_alive_ st)); [split; reflexivity |].
  destruct (TwoPL.lock_request tx false h offset st) as [granted st1].
  destruct granted; split; reflexivity.
Qed.

(** In the SGT coordinator the two differ in the load of the value only. *)
Lemma sgt_readValue_read (out : Z) (h : Ref) (offset : nat) (tx : Z)
    (st : @SGT.State SG) :
  let r := SGT.read h offset tx st in
  let rv := SGT.readValue out h offset tx st in
  rv.1.1 = negb (r.1 =? 0) ∧ rv.2 = r.2.
Proof.
  unfold SGT.read, SGT.readValue.
  destruct (decide (tx ∈ not_alive_ st)); [split; reflexivity |].
  destruct (SGT.needsAbort (manager st) tx); split; reflexivity.
Qed.

(** C9, amended.  For every starting state and arguments, [read] succeeds
    (returns nonzero) exactly when [readValue] on the same cell and
    transaction succeeds.  In the SGT coordinator both leave the same
    coordinator.  In the SS2PL coordinator both leave the same [not_alive_],
    [abort_transaction_] and locks, and the same undo log when they fail; when
    they succeed, the undo log of [readValue] is the one of [read] with the
    read entry of the access prepended. *)
Theorem read_readValue_agree (out : Z) (h : Ref) (offset : nat) (tx : Z)
    (st2 : @TwoPL.State LM) (st : @SGT.State SG) :
  let r2 := TwoPL.read h offset tx st2 in
  let rv2 := TwoPL.readValue out h offset tx st2 in
  let r := SGT.read h offset tx st in
  let rv := SGT.readValue out h offset tx st in
  ((r2.1 ≠ 0 ↔ rv2.1.1 = true) ∧
   same_sets_and_locks r2.2 rv2.2 ∧
   atom_info_ rv2.2 =
     if rv2.1.1 then ReadTransactionInformation h 0 offset tx :: atom_info_ r2.2
     else atom_info_ r2.2) ∧
  ((r.1 ≠ 0 ↔ rv.1.1 = true) ∧ rv.2 = r.2 ∧ same_coordinator_state r.2 rv.2).
Proof.
  intros r2 rv2 r rv.
  destruct (twopl_readValue_read out 0 h offset tx st2) as [Hb2 Hs2].
  destruct (sgt_readValue_read out h offset tx st) as [Hb Hs].
  fold r2 rv2 in Hb2, Hs2. fold r rv in Hb, Hs.
  split; [split; [| split] | split; [| split]].
  - rewrite Hb2. destruct (Z.eqb_spec r2.1 0) as [-> | Hne]; simpl; split; congruence.
  - rewrite Hs2. destruct rv2.1.1; repeat split; reflexivity.
  - rewrite Hs2. destruct rv2.1.1; reflexivity.
  - rewrite Hb. destruct (Z.eqb_spec r.1 0) as [-> | Hne]; simpl; split; congruence.
  - exact Hs.
  - rewrite Hs. repeat split; reflexivity.
Qed.

End ReadEntryPoints.

(** C9 as stated fails in the SS2PL coordinator: on a fresh coordinator whose
    lock manager grants the request, [read] leaves the undo log empty and
    [readValue] leaves one read entry in it. *)
Lemma read_readValue_undo_log_differs :
  ¬ (let r := TwoPL.read (lm := granting) 0%nat 2%nat 1 fresh_2pl in
     let rv := TwoPL.readValue (lm := granting) 9 0%nat 2%nat 1 fresh_2pl in
     (r.1 ≠ 0 ↔ rv.1.1 = true) ∧ same_coordinator_state r.2 rv.2).
Proof.
  intros [_ (_ & _ & Hlog & _)]. vm_compute in Hlog. discriminate Hlog.
Qed.

(** ** Tickets *)

Section Tickets.
Context {LM : Type} {lm : TwoPL.LockManager LM}.
Context {SG : Type} {sg : SGT.SerializationGraph SG}.

Lemma twopl_undo_step_keeps {A : Type} (proj : Cells TwoPL.Lock → A)
    (st : @TwoPL.State LM) (t : TxInfo) :
  (∀ c f, proj (set_column f c) = proj c) → keeps proj st (TwoPL.undo_step st t).
Proof.
  intros Hp. unfold TwoPL.undo_step.
  destruct (negb (isWriteTransaction t) || isAbort t); [apply keeps_refl |].
  destruct t as [| new old h prv offset tx a]; simpl; [apply keeps_refl |].
  apply keeps_update. intros c. apply Hp.
Qed.

Lemma twopl_info_unlock_keeps {A : Type} (proj : Cells TwoPL.Lock → A)
    (st : @TwoPL.State LM) (t : TxInfo) :
  (∀ c f, proj (set_locking f c) = proj c) → keeps proj st (TwoPL.info_unlock t st).
Proof.
  intros Hp. unfold TwoPL.info_unlock.
  destruct (TwoPL.unlock _ _ _ _) as [lm' lk].
  eapply keeps_trans; [| apply keeps_update; intros c; apply Hp].
  apply keeps_store. reflexivity.
Qed.

Lemma twopl_release_step_keeps {A : Type} (proj : Cells TwoPL.Lock → A)
    (st : @TwoPL.State LM) (t : TxInfo) :
  (∀ c f, proj (set_locking f c) = proj c) →
  (∀ c f, proj (set_rw_table f c) = proj c) →
  keeps proj st (TwoPL.release_step st t).
Proof.
  intros Hl Hrw. unfold TwoPL.release_step.
  eapply keeps_trans; [apply twopl_info_unlock_keeps, Hl | apply keeps_release, Hrw].
Qed.

(** [abort] writes columns, unlocks and unlinks records of [rw_table]; what
    none of the three touches is kept. *)
Lemma twopl_abort_keeps {A : Type} (proj : Cells TwoPL.Lock → A) (tx : Z)
    (st : @TwoPL.State LM) :
  (∀ c f, proj (set_column f c) = proj c) →
  (∀ c f, proj (set_locking f c) = proj c) →
  (∀ c f, proj (set_rw_table f c) = proj c) →
  keeps proj st (TwoPL.abort tx st).
Proof.
  intros Hc Hl Hrw. unfold TwoPL.abort.
  eapply keeps_trans; [| apply keeps_store; reflexivity].
  eapply keeps_trans;
    [| apply keeps_foldl; intros s t; apply twopl_release_step_keeps; assumption].
  eapply keeps_trans; [| apply keeps_foldl; intros s t; apply twopl_undo_step_keeps, Hc].
  apply keeps_store. reflexivity.
Qed.

Lemma twopl_readValue_keeps {A : Type} (proj : Cells TwoPL.Lock → A) (out : Z)
    (h : Ref) (offset : nat) (tx : Z) (st : @TwoPL.State LM) :
  (∀ c f, proj (set_locking f c) = proj c) →
  (keeps proj st (TwoPL.abort tx (TwoPL.lock_request tx false h offset st).2) ∨
   (TwoPL.readValue out h offset tx st).1.1 = true) →
  keeps proj st (TwoPL.readValue out h offset tx st).2.
Proof.
  intros Hl Hcase.
  pose proof (lock_request_keeps proj tx false h offset st Hl) as Hreq.
  revert Hcase. unfold TwoPL.readValue.
  destruct (decide (tx ∈ not_alive_ st)); [intros _; apply keeps_refl |].
  destruct (TwoPL.lock_request tx false h offset st) as [granted st1].
  simpl in *. destruct granted; simpl.
  - intros _. eapply keeps_trans; [exact Hreq | apply keeps_store; reflexivity].
  - intros [Hab | Hfalse]; [exact Hab | discriminate Hfalse].
Qed.

Lemma twopl_writeValue_keeps {A : Type} (proj : Cells TwoPL.Lock → A) (is_abort : bool)
    (v : Z) (h : Ref) (offset : nat) (tx : Z) (st : @TwoPL.State LM) :
  (∀ c f, proj (set_locking f c) = proj c) →
  (∀ c f, proj (set_column f c) = proj c) →
  (keeps proj st (TwoPL.abort tx (TwoPL.lock_request tx true h offset st).2) ∨
   (TwoPL.writeValue is_abort v h offset tx st).1 = true) →
  keeps proj st (TwoPL.writeValue is_abort v h offset tx st).2.
Proof.
  intros Hl Hc Hcase.
  pose proof (lock_request_keeps proj tx true h offset st Hl) as Hreq.
  revert Hcase.
  unfold TwoPL.writeValue, TwoPL.writeValue_with, TwoPL.writeValue_gate.
  destruct is_abort; simpl.
  { intros _. apply keeps_update. intros c. apply Hc. }
  destruct (decide (tx ∈ not_alive_ st)); [intros _; apply keeps_refl |].
  destruct (TwoPL.lock_request tx true h offset st) as [granted st1].
  simpl in *. destruct granted; simpl.
  - intros _. eapply keeps_trans; [exact Hreq |].
    eapply keeps_trans; [apply keeps_update; intros c; apply Hc |].
    apply keeps_store. reflexivity.
  - intros [Hab | Hfalse]; [exact Hab | discriminate Hfalse].
Qed.

Lemma sgt_readValue_keeps {A : Type} (proj : Cells Z → A) (out : Z)
    (h : Ref) (offset : nat) (tx : Z) (st : @SGT.State SG) :
  (keeps proj st (SGT.abort tx st) ∨ (SGT.readValue out h offset tx st).1.1 = true) →
  keeps proj st (SGT.readValue out h offset tx st).2.
Proof.
  unfold SGT.readValue.
  destruct (decide (tx ∈ not_alive_ st)); [intros _; apply keeps_refl |].
  destruct (SGT.needsAbort (manager st) tx); simpl.
  - intros [Hab | Hfalse]; [exact Hab | discriminate Hfalse].
  - intros _. apply keeps_refl.
Qed.

Lemma sgt_writeValue_keeps {A : Type} (proj : Cells Z → A) (is_abort : bool)
    (v : Z) (h : Ref) (offset : nat) (tx : Z) (st : @SGT.State SG) :
  (∀ c f, proj (set_column f c) = proj c) →
  (keeps proj st (SGT.abort tx st) ∨ (SGT.writeValue is_abort v h offset tx st).1 = true) →
  keeps proj st (SGT.writeValue is_abort v h offset tx st).2.
Proof.
  intros Hc.
  unfold SGT.writeValue, SGT.writeValue_with, SGT.writeValue_gate.
  destruct (negb is_abort && bool_decide _); [intros _; apply keeps_refl |].
  destruct (negb is_abort && SGT.needsAbort _ _); simpl.
  - intros [Hab | Hfalse]; [exact Hab | discriminate Hfalse].
  - intros _. apply keeps_update. intros c. apply Hc.
Qed.

(** C2, amended.  In both coordinators [readValue] and [writeValue] take no
    ticket: they push nothing onto [rw_table[c]] and store nothing into
    [lsn_column[c]].  Every such operation leaves [lsn_column] as it was, also
    when it ends by aborting, and every one that returns [true] leaves
    [rw_table] as it was. *)
Theorem operations_take_no_ticket (out v : Z) (is_abort : bool) (h : Ref)
    (offset : nat) (tx : Z) (st2 : @TwoPL.State LM) (st : @SGT.State SG) :
  let rv2 := TwoPL.readValue out h offset tx st2 in
  let w2 := TwoPL.writeValue is_abort v h offset tx st2 in
  let rv := SGT.readValue out h offset tx st in
  let w := SGT.writeValue is_abort v h offset tx st in
  (keeps lsn_column st2 rv2.2 ∧ keeps lsn_column st2 w2.2 ∧
   keeps lsn_column st rv.2 ∧ keeps lsn_column st w.2) ∧
  ((rv2.1.1 = true → keeps rw_table st2 rv2.2) ∧
   (w2.1 = true → keeps rw_table st2 w2.2) ∧
   (rv.1.1 = true → keeps rw_table st rv.2) ∧
   (w.1 = true → keeps rw_table st w.2)).
Proof.
  intros rv2 w2 rv w. subst rv2 w2 rv w. split; repeat split.
  - apply twopl_readValue_keeps; [reflexivity |]. left.
    eapply keeps_trans; [apply lock_request_keeps; reflexivity |].
    apply twopl_abort_keeps; reflexivity.
  - apply twopl_writeValue_keeps; [reflexivity | reflexivity |]. left.
    eapply keeps_trans; [apply lock_request_keeps; reflexivity |].
    apply twopl_abort_keeps; reflexivity.
  - apply sgt_readValue_keeps. left. apply sgt_abort_keeps; reflexivity.
  - apply sgt_writeValue_keeps; [reflexivity |]. left.
    apply sgt_abort_keeps; reflexivity.
  - intros Hok. apply twopl_readValue_keeps; [reflexivity | right; exact Hok].
  - intros Hok.
    apply twopl_writeValue_keeps; [reflexivity | reflexivity | right; exact Hok].
  - intros Hok. apply sgt_readValue_keeps. right. exact Hok.
  - intros Hok. apply sgt_writeValue_keeps; [reflexivity | right; exact Hok].
Qed.

End Tickets.

(** C2 as stated fails in both coordinators: on a fresh coordinator, whose
    lists have issued no ticket and whose [lsn_column] holds 0, a successful
    [readValue] or [writeValue] on cell 2 leaves the list of the cell without
    a ticket issued and [lsn_column[2]] at 0, not at 1. *)
Lemma operations_leave_no_ticket :
  let rv2 := TwoPL.readValue (lm := granting) 9 0%nat 2%nat 1 fresh_2pl in
  let w2 := TwoPL.writeValue (lm := granting) false 3 0%nat 2%nat 1 fresh_2pl in
  let rv := SGT.readValue (sg := flagged) 9 0%nat 2%nat 1 fresh_sgt in
  let w := SGT.writeValue (sg := flagged) false 3 0%nat 2%nat 1 fresh_sgt in
  (rv2.1.1 = true ∧ w2.1 = true ∧ rv.1.1 = true ∧ w.1 = true) ∧
  ¬ ticket_protocol (access 1 false) 0%nat 2%nat fresh_2pl rv2.2 ∧
  ¬ ticket_protocol (access 1 true) 0%nat 2%nat fresh_2pl w2.2 ∧
  ¬ ticket_protocol (access 1 false) 0%nat 2%nat fresh_sgt rv.2 ∧
  ¬ ticket_protocol (access 1 true) 0%nat 2%nat fresh_sgt w.2.
Proof.
  split; [repeat split |].
  repeat split; intros [Hissued _]; vm_compute in Hissued; discriminate Hissued.
Qed.

(** ** Abort and the columns *)

Section TwoPLAbort.
Context {LM : Type} {lm : TwoPL.LockManager LM}.
Implicit Type st : @TwoPL.State LM.



Lemma twopl_undo_atom_info (l : list TxInfo) st :
  atom_info_ (foldl TwoPL.undo_step st l) = atom_info_ st.
Proof.
  revert st. induction l as [| t l IH]; intros st; simpl; [reflexivity |].
  rewrite IH. unfold TwoPL.undo_step.
  destruct (negb (isWriteTransaction t) || isAbort t); [reflexivity |].
  destruct t; reflexivity.
Qed.









End TwoPLAbort.

Section SGTAbort.
Context {SG : Type} {sg : SGT.SerializationGraph SG}.
Implicit Type st : @SGT.State SG.

Lemma sgt_undo_step_column st (t : TxInfo) (h' : Ref) :
  column (deref (SGT.undo_step st t) h') = undo_column h' (column (deref st h')) t.
Proof.
  unfold SGT.undo_step.
  destruct t as [| new old h prv offset tx a]; simpl; [reflexivity |].
  destruct a; simpl; [reflexivity |].
  destruct (decide (h = h')) as [<- | Hne].
  - apply column_update_replace.
  - rewrite deref_update, decide_False by exact Hne. reflexivity.
Qed.

Lemma sgt_undo_column (l : list TxInfo) st (h' : Ref) :
  column (deref (foldl SGT.undo_step st l) h') =
  foldl (undo_column h') (column (deref st h')) l.
Proof.
  revert st. induction l as [| t l IH]; intros st; simpl; [reflexivity |].
  rewrite IH, sgt_undo_step_column. reflexivity.
Qed.

(** As in the SS2PL coordinator, [abort] replays the undo log on the
    columns. *)
Lemma sgt_abort_column (tx : Z) st (h' : Ref) :
  column (deref (SGT.abort tx st) h') =
  foldl (undo_column h') (column (deref st h')) (atom_info_ st).
Proof.
  unfold SGT.abort.
  assert (Hrel : ∀ (s : @SGT.State SG) l, keeps column s (foldl SGT.release_step s l)).
  { intros s l. apply keeps_foldl. intros s' t. unfold SGT.release_step.
    apply keeps_release. reflexivity. }
  assert (Hgraph : ∀ s : @SGT.State SG, keeps column s (SGT.graph_abort s)).
  { intros s. apply keeps_store, sgt_graph_abort_store. }
  change (column (deref (destroy ?s) h')) with (column (deref s h')).
  rewrite Hrel, Hgraph, sgt_undo_column. reflexivity.
Qed.

(** A successful [writeValue] of the SGT coordinator leaves the undo log as
    it was: the write is not recorded. *)
Lemma sgt_writeValue_not_recorded (v : Z) (h : Ref) (offset : nat) (tx : Z) st :
  (SGT.writeValue false v h offset tx st).1 = true →
  atom_info_ (SGT.writeValue false v h offset tx st).2 = atom_info_ st ∧
  column (deref (SGT.writeValue false v h offset tx st).2 h)
    = <[offset := v]> (column (deref st h)).
Proof.
  unfold SGT.writeValue, SGT.writeValue_with, SGT.writeValue_gate. simpl.
  destruct (bool_decide (tx ∈ not_alive_ st)); simpl; [discriminate |].
  destruct (SGT.needsAbort (manager st) tx); simpl; [discriminate |].
  intros _. split; [reflexivity | apply column_update_replace].
Qed.

(** Hence a write made on an empty undo log survives the abort of its
    transaction. *)
Lemma sgt_abort_keeps_write (v : Z) (h : Ref) (offset : nat) (tx : Z) st :
  atom_info_ st = [] →
  (SGT.writeValue false v h offset tx st).1 = true →
  column (deref (SGT.abort tx (SGT.writeValue false v h offset tx st).2) h)
    = <[offset := v]> (column (deref st h)).
Proof.
  intros Hlog Hok.
  destruct (sgt_writeValue_not_recorded v h offset tx st Hok) as [Hrec Hcol].
  rewrite sgt_abort_column, Hrec, Hlog. simpl. exact Hcol.
Qed.

End SGTAbort.

(** C3 on the code of the SGT coordinator, in a run of one transaction on the
    four cells: after [start], a successful [writeValue] of 5 into cell 0,
    which held 0, records no undo entry, and [abort] returns with 5 in the
    cell, where the claim has the value before the write, 0. *)
Theorem sgt_abort_leaves_written_value :
  let run := SGT.start (sg := flagged) 3 fresh_sgt in
  let w := SGT.writeValue (sg := flagged) false 5 0%nat 0%nat run.1 run.2 in
  column (deref run.2 0%nat) = [0; 0; 0; 0] ∧
  w.1 = true ∧
  column (deref w.2 0%nat) = [5; 0; 0; 0] ∧
  atom_info_ w.2 = [] ∧
  column (deref (SGT.abort (sg := flagged) run.1 w.2) 0%nat) = [5; 0; 0; 0] ∧
  run.1 ∈ not_alive_ (SGT.abort (sg := flagged) run.1 w.2).
Proof. vm_compute. repeat split; reflexivity. Qed.

(** The same run on the SS2PL coordinator, with a lock manager that grants the
    request: [abort] returns with 0 in the cell. *)
Example twopl_abort_restores_written_value :
  let run := TwoPL.start (lm := granting) 3 fresh_2pl in
  let w := TwoPL.writeValue (lm := granting) false 5 0%nat 0%nat run.1 run.2 in
  w.1 = true ∧
  column (deref w.2 0%nat) = [5; 0; 0; 0] ∧
  column (deref (TwoPL.abort (lm := granting) run.1 w.2) 0%nat) = [0; 0; 0; 0].
Proof. vm_compute. repeat split; reflexivity. Qed.

(** * Further properties of the coordinators *)

(** ** Access records of any 64-bit word *)

Section AccessRecordWords.

Lemma mask_mod (x : Z) : Z.land TX_MASK x = x mod 2 ^ 63.
Proof. rewrite Z.land_comm, TX_MASK_ones, Z.land_ones by lia. reflexivity. Qed.

Lemma high_bit_shift (x : Z) : 0 <= x < 2 ^ 64 -> Z.shiftr x 63 = x / 2 ^ 63.
Proof. intros _. apply Z.shiftr_div_pow2. lia. Qed.

Lemma write_bit_lor_mod (tx : Z) :
  0 <= tx -> Z.land TX_MASK (Z.lor WRITE_BIT tx) = tx mod 2 ^ 63.
Proof.
  intros Htx. rewrite Z.land_lor_distr_r, !mask_mod.
  replace (WRITE_BIT mod 2 ^ 63) with 0 by reflexivity. apply Z.lor_0_l.
Qed.

Lemma write_bit_shift (tx : Z) : 0 <= tx -> Z.shiftr (Z.lor WRITE_BIT tx) 63 ≠ 0.
Proof.
  intros Htx Hz. rewrite Z.shiftr_lor in Hz.
  apply Z.lor_eq_0_iff in Hz as [Hone _]. vm_compute in Hone. discriminate Hone.
Qed.

Lemma to_bool_high (x : Z) :
  0 <= x < 2 ^ 64 -> to_bool (Z.shiftr x 63) = negb (x <? 2 ^ 63).
Proof.
  intros Hx. rewrite high_bit_shift by exact Hx. unfold to_bool.
  destruct (Z.ltb_spec x (2 ^ 63)) as [Hlt | Hge].
  - rewrite Z.div_small by lia. reflexivity.
  - replace (x / 2 ^ 63) with 1; [reflexivity |].
    apply (Z.div_unique x (2 ^ 63) 1 (x - 2 ^ 63)); lia.
Qed.

End AccessRecordWords.

(** X1. Decoding any 64-bit word with [find] and encoding the result again
    with [access] gives the word back. *)
Theorem access_find (encoded_id : Z) :
  uint64 encoded_id ->
  access (find encoded_id).1 (find encoded_id).2 = encoded_id.
Proof.
  unfold uint64. intros He. unfold find. cbn [fst snd].
  rewrite to_bool_high by exact He. unfold access.
  destruct (Z.ltb_spec encoded_id (2 ^ 63)) as [Hlt | Hge]; cbn [negb].
  - rewrite !mask_mod, Z.mod_mod by lia. apply Z.mod_small. lia.
  - rewrite mask_mod.
    assert (Hr : encoded_id mod 2 ^ 63 = encoded_id - 2 ^ 63).
    { symmetry. apply (Z.mod_unique encoded_id (2 ^ 63) 1); lia. }
    rewrite Hr, write_bit_lor by lia. lia.
Qed.

Lemma access_find_witness :
  uint64 0x8100000000000007 ∧
  access (find 0x8100000000000007).1 (find 0x8100000000000007).2 = 0x8100000000000007.
Proof.
  assert (Hw : uint64 0x8100000000000007) by (unfold uint64; lia).
  split; [exact Hw | exact (access_find 0x8100000000000007 Hw)].
Defined.

Section AccessRecordLowBits.

Lemma find_access_word (tx : Z) (m : bool) :
  0 <= tx < 2 ^ 64 -> find (access tx m) = (tx mod 2 ^ 63, m).
Proof.
  intros Ht. unfold find, access. destruct m.
  - rewrite write_bit_lor_mod by lia. f_equal. unfold to_bool.
    destruct (Z.eqb_spec (Z.shiftr (Z.lor WRITE_BIT tx) 63) 0) as [Hz | Hnz];
      [| reflexivity].
    exfalso. exact (write_bit_shift tx (proj1 Ht) Hz).
  - rewrite !mask_mod, Z.mod_mod by lia. f_equal.
    assert (Hlow : 0 <= tx mod 2 ^ 63 < 2 ^ 63) by (apply Z.mod_pos_bound; lia).
    rewrite Z.shiftr_div_pow2, Z.div_small by lia. reflexivity.
Qed.

Lemma write_bit_lor_range (tx : Z) :
  0 <= tx < 2 ^ 64 -> 2 ^ 63 <= Z.lor WRITE_BIT tx < 2 ^ 64.
Proof.
  intros Ht.
  assert (Hlow : 0 <= tx mod 2 ^ 63 < 2 ^ 63) by (apply Z.mod_pos_bound; lia).
  assert (Hsplit : Z.lor WRITE_BIT tx = Z.lor WRITE_BIT (tx mod 2 ^ 63)).
  { apply Z.bits_inj'. intros i Hi. rewrite !Z.lor_spec.
    destruct (Z_lt_ge_dec i 63) as [Hlo | Hhi].
    - rewrite Z.mod_pow2_bits_low by lia. reflexivity.
    - rewrite Z.mod_pow2_bits_high by lia.
      destruct (Z.eq_dec i 63) as [-> | Hne].
      + rewrite WRITE_BIT_pow, Z.pow2_bits_true by lia. reflexivity.
      + rewrite WRITE_BIT_pow, Z.pow2_bits_false by lia.
        destruct (Z.eq_dec tx 0) as [-> | Hpos]; [rewrite Z.bits_0; reflexivity |].
        rewrite (Z.bits_above_log2 tx i); [reflexivity | lia |].
        assert (Z.log2 tx < 64) by (apply Z.log2_lt_pow2; lia). lia. }
  rewrite Hsplit, write_bit_lor by exact Hlow. lia.
Qed.

End AccessRecordLowBits.

(** X2. For any 64-bit transaction id, also one whose top bit is set, [find]
    of its access record returns the mode and the low 63 bits of the id: the
    top bit of the id is lost.  The record is a 64-bit word, and the record of
    a read is never the record of a write. *)
Theorem find_access_low_bits (tx : Z) (m : bool) :
  uint64 tx ->
  find (access tx m) = (tx mod 2 ^ 63, m) ∧
  uint64 (access tx m) ∧
  ∀ tx', uint64 tx' -> access tx false ≠ access tx' true.
Proof.
  unfold uint64. intros Htx.
  split; [apply find_access_word, Htx |]. split.
  - unfold access. destruct m.
    + pose proof (write_bit_lor_range tx Htx). lia.
    + rewrite mask_mod.
      assert (0 <= tx mod 2 ^ 63 < 2 ^ 63) by (apply Z.mod_pos_bound; lia). lia.
  - intros tx' Htx' Heq.
    pose proof (find_access_word tx false Htx) as Hr.
    pose proof (find_access_word tx' true Htx') as Hw.
    rewrite Heq in Hr. rewrite Hr in Hw. discriminate Hw.
Qed.

Lemma find_access_low_bits_witness :
  uint64 0x8100000000000007 ∧
  find (access 0x8100000000000007 false) = (0x8100000000000007 mod 2 ^ 63, false).
Proof.
  assert (Hw : uint64 0x8100000000000007) by (unfold uint64; lia).
  split; [exact Hw |].
  exact (proj1 (find_access_low_bits 0x8100000000000007 false Hw)).
Defined.

(** ** Transaction ids *)

Section TransactionIds.

(** The id that [start] composes: the low 56 bits of the counter under the
    core shifted by 56. *)
Lemma compose_id (tc core : Z) :
  0 <= tc -> 0 <= core < 256 ->
  Z.lor (Z.land tc 0x00FFFFFFFFFFFFFF) (Z.shiftl core 56 mod 2 ^ 64)
  = core * 2 ^ 56 + tc mod 2 ^ 56.
Proof.
  intros Htc Hcore.
  replace 0x00FFFFFFFFFFFFFF with (Z.ones 56) by reflexivity.
  rewrite Z.land_ones, Z.shiftl_mul_pow2 by lia.
  assert (Hlow : 0 <= tc mod 2 ^ 56 < 2 ^ 56) by (apply Z.mod_pos_bound; lia).
  rewrite (Z.mod_small (core * 2 ^ 56)) by lia.
  rewrite <- Z.add_nocarry_lor; [lia |].
  apply Z.bits_inj'. intros i Hi. rewrite Z.land_spec, Z.bits_0.
  destruct (Z_lt_ge_dec i 56) as [Hlo | Hhi].
  - rewrite Z.mul_pow2_bits_low by lia. apply andb_false_r.
  - rewrite Z.mod_pow2_bits_high by lia. reflexivity.
Qed.

Lemma compose_id_parts (tc core : Z) :
  0 <= tc -> 0 <= core < 256 ->
  let id := core * 2 ^ 56 + tc mod 2 ^ 56 in
  id / 2 ^ 56 = core ∧ id mod 2 ^ 56 = tc mod 2 ^ 56 ∧ 0 <= id < 2 ^ 64.
Proof.
  intros Htc Hcore id. subst id.
  assert (Hlow : 0 <= tc mod 2 ^ 56 < 2 ^ 56) by (apply Z.mod_pos_bound; lia).
  split; [| split].
  - symmetry. apply (Z.div_unique _ (2 ^ 56) core (tc mod 2 ^ 56)); lia.
  - symmetry. apply (Z.mod_unique _ (2 ^ 56) core (tc mod 2 ^ 56)); lia.
  - lia.
Qed.

Lemma counter_low_bits (c : Z) : ((c + 1) mod 2 ^ 64) mod 2 ^ 56 = (c + 1) mod 2 ^ 56.
Proof.
  replace (2 ^ 64) with (2 ^ 56 * 2 ^ 8) by reflexivity.
  rewrite Z.rem_mul_r by lia.
  rewrite (Z.mul_comm (2 ^ 56)), Z.mod_add by lia. apply Z.mod_mod. lia.
Qed.

End TransactionIds.

Section TwoPLStart.
Context {LM : Type} {lm : TwoPL.LockManager LM}.
Implicit Type st : @TwoPL.State LM.

(** The core that [start] uses: the stored one, or the answer of
    [sched_getcpu()] when the stored one is still 255. *)
Lemma twopl_start_core (cpu : Z) st :
  current_core_ (TwoPL.start cpu st).2 =
  if current_core_ st =? 255 then cpu mod 2 ^ 8 else current_core_ st.
Proof. unfold TwoPL.start. simpl. destruct (current_core_ st =? 255); reflexivity. Qed.

Lemma twopl_start_core_range (cpu : Z) st :
  0 <= current_core_ st < 256 -> 0 <= current_core_ (TwoPL.start cpu st).2 < 256.
Proof.
  intros Hc. rewrite twopl_start_core.
  destruct (current_core_ st =? 255); [| exact Hc].
  replace (2 ^ 8) with 256 by reflexivity. apply Z.mod_pos_bound. lia.
Qed.

Lemma twopl_start_counter (cpu : Z) st :
  transaction_counter_ (TwoPL.start cpu st).2 = (transaction_counter_ st + 1) mod 2 ^ 64.
Proof. unfold TwoPL.start. simpl. destruct (current_core_ st =? 255); reflexivity. Qed.

Lemma twopl_start_id (cpu : Z) st :
  0 <= current_core_ st < 256 ->
  (TwoPL.start cpu st).1 =
  current_core_ (TwoPL.start cpu st).2 * 2 ^ 56 + (transaction_counter_ st + 1) mod 2 ^ 56.
Proof.
  intros Hc. pose proof (twopl_start_core_range cpu st Hc) as Hrange.
  rewrite twopl_start_core in *.
  assert (Hcnt : 0 <= (transaction_counter_ st + 1) mod 2 ^ 64 < 2 ^ 64)
    by (apply Z.mod_pos_bound; lia).
  unfold TwoPL.start. cbn [fst current_core_ set_transaction_counter].
  revert Hrange.
  destruct (current_core_ st =? 255) eqn:Hfirst; intros Hrange;
    cbn [current_core_ set_current_core set_transaction_counter];
    rewrite compose_id by lia; rewrite counter_low_bits; reflexivity.
Qed.

End TwoPLStart.

Section TwoPLStartIds.
Context {LM : Type} {lm : TwoPL.LockManager LM}.
Implicit Type st : @TwoPL.State LM.

(** X3. The id that the SS2PL [start] returns has the core in its top 8 bits
    and the incremented counter in its low 56 bits, where the core is the
    stored [current_core_], or the answer of [sched_getcpu()] when the stored
    one is still 255.  The counter is stored incremented. *)
Theorem twopl_start_id_layout (cpu : Z) st :
  0 <= current_core_ st < 256 ->
  let r := TwoPL.start cpu st in
  current_core_ r.2 = (if current_core_ st =? 255 then cpu mod 2 ^ 8 else current_core_ st) ∧
  r.1 / 2 ^ 56 = current_core_ r.2 ∧
  r.1 mod 2 ^ 56 = (transaction_counter_ st + 1) mod 2 ^ 56 ∧
  uint64 r.1 ∧
  transaction_counter_ r.2 = (transaction_counter_ st + 1) mod 2 ^ 64.
Proof.
  intros Hc r. subst r.
  pose proof (twopl_start_core_range cpu st Hc) as Hrange.
  assert (Hn : 0 <= (transaction_counter_ st + 1) mod 2 ^ 64)
    by (apply Z.mod_pos_bound; lia).
  destruct (compose_id_parts ((transaction_counter_ st + 1) mod 2 ^ 64)
              (current_core_ (TwoPL.start cpu st).2) Hn Hrange) as (Hdiv & Hmod & Hword).
  rewrite counter_low_bits in Hdiv, Hmod, Hword.
  rewrite <- (twopl_start_id cpu st Hc) in Hdiv, Hmod, Hword.
  split; [apply twopl_start_core |]. split; [exact Hdiv |]. split; [exact Hmod |].
  split; [exact Hword | apply twopl_start_counter].
Qed.

(** X4. When the core is at most 127, which is what [start] verifies, the id
    is below [2 ^ 63] and comes back from its access record as it is; with a
    core of 128 or more the record gives back the id less [2 ^ 63]. *)
Theorem twopl_start_id_encodable (cpu : Z) (m : bool) st :
  0 <= current_core_ st < 256 ->
  let r := TwoPL.start cpu st in
  (current_core_ r.2 <= 127 -> r.1 < 2 ^ 63 ∧ find (access r.1 m) = (r.1, m)) ∧
  (128 <= current_core_ r.2 -> find (access r.1 m) = (r.1 - 2 ^ 63, m)).
Proof.
  intros Hc r. subst r.
  pose proof (twopl_start_core_range cpu st Hc) as Hrange.
  pose proof (twopl_start_id cpu st Hc) as Hid.
  assert (Hlow : 0 <= (transaction_counter_ st + 1) mod 2 ^ 56 < 2 ^ 56)
    by (apply Z.mod_pos_bound; lia).
  set (id := (TwoPL.start cpu st).1) in *.
  set (core := current_core_ (TwoPL.start cpu st).2) in *.
  assert (Hword : 0 <= id < 2 ^ 64) by lia.
  rewrite (find_access_word id m Hword).
  split; intros Hcore.
  - split; [lia |]. f_equal. apply Z.mod_small. lia.
  - f_equal. symmetry. apply (Z.mod_unique id (2 ^ 63) 1); lia.
Qed.

(** X5. Two consecutive calls of the SS2PL [start] never return the same
    id, whatever [sched_getcpu()] answers. *)
Theorem twopl_start_ids_differ (cpu cpu' : Z) st :
  0 <= current_core_ st < 256 ->
  (TwoPL.start cpu' (TwoPL.start cpu st).2).1 ≠ (TwoPL.start cpu st).1.
Proof.
  intros Hc Heq.
  pose proof (twopl_start_core_range cpu st Hc) as Hc1.
  pose proof (twopl_start_core_range cpu' _ Hc1) as Hc2.
  pose proof (twopl_start_id cpu st Hc) as Hid1.
  pose proof (twopl_start_id cpu' _ Hc1) as Hid2.
  rewrite twopl_start_counter in Hid2.
  rewrite Heq, Hid1 in Hid2. clear Heq Hid1.
  assert (Hstep : ((transaction_counter_ st + 1) mod 2 ^ 64 + 1) mod 2 ^ 56
                  = ((transaction_counter_ st + 1) mod 2 ^ 56 + 1) mod 2 ^ 56).
  { rewrite Z.add_mod, counter_low_bits by lia. rewrite <- Z.add_mod by lia.
    rewrite Z.add_mod_idemp_l by lia. reflexivity. }
  rewrite Hstep in Hid2. clear Hstep.
  set (a := (transaction_counter_ st + 1) mod 2 ^ 56) in *.
  assert (Ha : 0 <= a < 2 ^ 56) by (apply Z.mod_pos_bound; lia).
  assert (Hb : 0 <= (a + 1) mod 2 ^ 56 < 2 ^ 56) by (apply Z.mod_pos_bound; lia).
  assert (Hlow : (a + 1) mod 2 ^ 56 = a) by lia.
  destruct (Z_lt_ge_dec (a + 1) (2 ^ 56)) as [Hlt | Hge].
  - rewrite Z.mod_small in Hlow by lia. lia.
  - replace (a + 1) with (2 ^ 56) in Hlow by lia.
    rewrite Z.mod_same in Hlow by lia. lia.
Qed.

End TwoPLStartIds.

Lemma twopl_start_id_layout_witness :
  0 <= current_core_ fresh_2pl < 256 ∧
  (TwoPL.start (lm := granting) 3 fresh_2pl).1 / 2 ^ 56
    = current_core_ (TwoPL.start (lm := granting) 3 fresh_2pl).2.
Proof.
  assert (Hc : 0 <= current_core_ fresh_2pl < 256) by (change (current_core_ fresh_2pl) with 255; lia).
  split; [exact Hc |].
  exact (proj1 (proj2 (twopl_start_id_layout (lm := granting) 3 fresh_2pl Hc))).
Defined.

Lemma twopl_start_id_encodable_witness :
  0 <= current_core_ fresh_2pl < 256 ∧
  (TwoPL.start (lm := granting) 3 fresh_2pl).1 < 2 ^ 63 ∧
  find (access (TwoPL.start (lm := granting) 3 fresh_2pl).1 true)
    = ((TwoPL.start (lm := granting) 3 fresh_2pl).1, true).
Proof.
  assert (Hc : 0 <= current_core_ fresh_2pl < 256) by (change (current_core_ fresh_2pl) with 255; lia).
  assert (Hcore : current_core_ (TwoPL.start (lm := granting) 3 fresh_2pl).2 <= 127)
    by (vm_compute; intros Hgt; discriminate Hgt).
  split; [exact Hc |].
  exact (proj1 (twopl_start_id_encodable (lm := granting) 3 true fresh_2pl Hc) Hcore).
Defined.

Lemma twopl_start_ids_differ_witness :
  0 <= current_core_ fresh_2pl < 256 ∧
  (TwoPL.start (lm := granting) 5 (TwoPL.start (lm := granting) 3 fresh_2pl).2).1
    ≠ (TwoPL.start (lm := granting) 3 fresh_2pl).1.
Proof.
  assert (Hc : 0 <= current_core_ fresh_2pl < 256) by (change (current_core_ fresh_2pl) with 255; lia).
  split; [exact Hc |].
  exact (twopl_start_ids_differ (lm := granting) 3 5 fresh_2pl Hc).
Defined.

(** ** Fields that the loops of [abort] and [commit] leave alone *)

Section Loops.
Context {LM : Type} {lm : TwoPL.LockManager LM}.
Context {SG : Type} {sg : SGT.SerializationGraph SG}.

Lemma twopl_undo_step_only_store (t : TxInfo) (st : @TwoPL.State LM) :
  TwoPL.undo_step st t = set_store (store (TwoPL.undo_step st t)) st.
Proof.
  unfold TwoPL.undo_step.
  destruct (negb (isWriteTransaction t) || isAbort t); [destruct st; reflexivity |].
  destruct t; [destruct st; reflexivity | reflexivity].
Qed.

Lemma twopl_undo_only_store (l : list TxInfo) (st : @TwoPL.State LM) :
  foldl TwoPL.undo_step st l = set_store (store (foldl TwoPL.undo_step st l)) st.
Proof.
  revert st. induction l as [| t l IH]; intros st; simpl.
  - destruct st; reflexivity.
  - rewrite IH at 1. rewrite (twopl_undo_step_only_store t st) at 2. reflexivity.
Qed.

Lemma sgt_undo_step_only_store (t : TxInfo) (st : @SGT.State SG) :
  SGT.undo_step st t = set_store (store (SGT.undo_step st t)) st.
Proof.
  unfold SGT.undo_step.
  destruct (negb (isWriteTransaction t) || isAbort t); [destruct st; reflexivity |].
  destruct t; [destruct st; reflexivity | reflexivity].
Qed.

Lemma sgt_undo_only_store (l : list TxInfo) (st : @SGT.State SG) :
  foldl SGT.undo_step st l = set_store (store (foldl SGT.undo_step st l)) st.
Proof.
  revert st. induction l as [| t l IH]; intros st; simpl.
  - destruct st; reflexivity.
  - rewrite IH at 1. rewrite (sgt_undo_step_only_store t st) at 2. reflexivity.
Qed.

(** The release of the records gives each back to the allocator and keeps
    the sets and the log. *)
Lemma twopl_release_fields (l : list TxInfo) (st : @TwoPL.State LM) :
  let st' := foldl TwoPL.release_step st l in
  not_alive_ st' = not_alive_ st ∧ abort_transaction_ st' = abort_transaction_ st ∧
  atom_info_ st' = atom_info_ st ∧ eg_ st' = eg_ st ∧
  alloc_ st' = alloc_ st - Z.of_nat (length l).
Proof.
  revert st. induction l as [| t l IH]; intros st; simpl.
  - repeat split. lia.
  - destruct (IH (TwoPL.release_step st t)) as (-> & -> & -> & -> & ->).
    unfold TwoPL.release_step, TwoPL.info_unlock.
    destruct (TwoPL.unlock _ _ _ _) as [lm' lk]. simpl.
    repeat split. lia.
Qed.

Lemma sgt_release_fields (l : list TxInfo) (st : @SGT.State SG) :
  let st' := foldl SGT.release_step st l in
  not_alive_ st' = not_alive_ st ∧ abort_transaction_ st' = abort_transaction_ st ∧
  atom_info_ st' = atom_info_ st ∧ eg_ st' = eg_ st ∧
  alloc_ st' = alloc_ st - Z.of_nat (length l).
Proof.
  revert st. induction l as [| t l IH]; intros st; simpl.
  - repeat split. lia.
  - destruct (IH (SGT.release_step st t)) as (-> & -> & -> & -> & ->).
    unfold SGT.release_step. simpl. repeat split. lia.
Qed.

(** What [abort] leaves in the fields of the coordinator. *)
Lemma twopl_abort_fields (tx : Z) (st : @TwoPL.State LM) :
  let st' := TwoPL.abort tx st in
  not_alive_ st' = {[tx]} ∪ not_alive_ st ∧
  abort_transaction_ st' = abort_transaction_ st ∧
  atom_info_ st' = [] ∧ eg_ st' = false ∧
  alloc_ st' = alloc_ st - Z.of_nat (length (atom_info_ st)).
Proof.
  unfold TwoPL.abort. simpl.
  match goal with |- context [foldl TwoPL.release_step ?s ?l] =>
    destruct (twopl_release_fields l s) as (Hn & Ha & Hi & He & Hal) end.
  simpl in *. rewrite Hn, Ha, Hal.
  rewrite twopl_undo_only_store. simpl. repeat split.
Qed.

Lemma sgt_abort_fields (tx : Z) (st : @SGT.State SG) :
  let st' := SGT.abort tx st in
  not_alive_ st' = {[tx]} ∪ not_alive_ st ∧
  atom_info_ st' = [] ∧ eg_ st' = false ∧
  alloc_ st' = alloc_ st - Z.of_nat (length (atom_info_ st)).
Proof.
  unfold SGT.abort. simpl.
  match goal with |- context [foldl SGT.release_step ?s ?l] =>
    destruct (sgt_release_fields l s) as (Hn & Ha & Hi & He & Hal) end.
  simpl in *. rewrite Hn, Hal.
  unfold SGT.graph_abort. destruct (SGT.sg_abort _ _) as [g aset]. simpl.
  rewrite sgt_undo_only_store. simpl. repeat split.
Qed.

End Loops.

(** ** The loop on the lock word *)

(** X6. The loop [while(__sync_bool_compare_and_swap(&lockInfo, 0, 1))] of the
    SGT coordinator ends for every content of the local [lockInfo]: a 0
    becomes 1 and any other content is kept, so the loop never leaves 0; the
    closing swap then leaves 0 where the word was 0 or 1 and keeps any other
    content. *)
Theorem sgt_spin_on_copy (lockInfo : Z) :
  SGT.spin lockInfo = (if lockInfo =? 0 then 1 else lockInfo) ∧
  SGT.spin lockInfo ≠ 0 ∧
  SGT.release (SGT.spin lockInfo) = (if (lockInfo =? 0) || (lockInfo =? 1) then 0 else lockInfo).
Proof.
  rewrite spin_spec. unfold SGT.release, SGT.compare_and_swap.
  destruct (Z.eqb_spec lockInfo 0) as [-> | Hne]; simpl.
  - repeat split. discriminate.
  - split; [reflexivity |]. split; [exact Hne |].
    destruct (Z.eqb_spec lockInfo 1); reflexivity.
Qed.

Section SGTLockWords.
Context {SG : Type} {sg : SGT.SerializationGraph SG}.
Implicit Type st : @SGT.State SG.

(** X7. No operation of the SGT coordinator stores into the vector [locked]:
    [readValue], [read], [writeValue] with either flag and [abort] return with
    every lock word as it was at the call, whether they succeed or abort. *)
Theorem sgt_never_writes_lock_words (out v : Z) (is_abort : bool) (h : Ref)
    (offset : nat) (tx : Z) st :
  keeps SGT.locked st (SGT.readValue out h offset tx st).2 ∧
  keeps SGT.locked st (SGT.read h offset tx st).2 ∧
  keeps SGT.locked st (SGT.writeValue is_abort v h offset tx st).2 ∧
  keeps SGT.locked st (SGT.abort tx st).
Proof.
  destruct (sgt_operations_keep_locked out v is_abort h offset tx st) as (Hrv & Hr & Hw).
  repeat split; try assumption.
  apply sgt_abort_keeps; reflexivity.
Qed.

End SGTLockWords.

(** ** Abort atomicity of the SS2PL coordinator *)

Section TwoPLAtomicity.
Context {LM : Type} {lm : TwoPL.LockManager LM}.
Implicit Type st : @TwoPL.State LM.


End TwoPLAtomicity.

(** ** Undo records and the allocator *)

Section TwoPLRecords.
Context {LM : Type} {lm : TwoPL.LockManager LM}.
Implicit Type st : @TwoPL.State LM.








End TwoPLRecords.

Section SGTRecords.
Context {SG : Type} {sg : SGT.SerializationGraph SG}.
Implicit Type st : @SGT.State SG.

Lemma sgt_step_records_nothing (tx : Z) (op : Op) st :
  is_readUndo op = false → atom_info_ st = [] →
  atom_info_ (sgt_step tx st op) = [] ∧ alloc_ (sgt_step tx st op) = alloc_ st.
Proof.
  intros Hop Hlog.
  assert (Hab : atom_info_ (SGT.abort tx st) = [] ∧ alloc_ (SGT.abort tx st) = alloc_ st).
  { destruct (sgt_abort_fields tx st) as (_ & -> & _ & ->). rewrite Hlog. simpl.
    split; [reflexivity | lia]. }
  destruct op as [out h offset | h offset | prv h offset | v h offset]; simpl;
    try discriminate Hop.
  - unfold SGT.readValue. destruct (decide _); [auto |].
    destruct (SGT.needsAbort _ _); simpl; auto.
  - unfold SGT.read. destruct (decide _); [auto |].
    destruct (SGT.needsAbort _ _); simpl; auto.
  - unfold SGT.writeValue, SGT.writeValue_with, SGT.writeValue_gate. simpl.
    destruct (bool_decide _); simpl; [auto |].
    destruct (SGT.needsAbort _ _); simpl; auto.
Qed.

(** X10. In the SGT coordinator [readValue], [read] and [writeValue] record
    nothing: after [start], any sequence of them leaves the undo log empty
    and the allocator untouched, so that an [abort] at that point returns
    with every column as the operations left it. *)
Theorem sgt_undo_log_stays_empty (cpu : Z) (ops : list Op) st :
  forallb (λ op, negb (is_readUndo op)) ops = true →
  let run := SGT.start cpu st in
  let last := sgt_run run.1 ops run.2 in
  atom_info_ last = [] ∧ alloc_ last = alloc_ st ∧
  keeps column last (SGT.abort run.1 last).
Proof.
  intros Hops run last.
  assert (Hstart : atom_info_ run.2 = [] ∧ alloc_ run.2 = alloc_ st).
  { subst run. unfold SGT.start. simpl.
    destruct (SGT.createNode _) as [node g].
    destruct (current_core_ st =? 255); simpl; auto. }
  assert (Hlast : atom_info_ last = [] ∧ alloc_ last = alloc_ st).
  { subst last. unfold sgt_run. destruct Hstart as [Hlog Hal]. rewrite <- Hal. clear Hal.
    revert Hlog. generalize run.2 as s. generalize run.1 as tx. clear run.
    induction ops as [| op ops IH]; intros tx s Hlog; simpl; [auto |].
    simpl in Hops. apply andb_prop in Hops as [Hop Hrest].
    apply negb_true_iff in Hop.
    destruct (sgt_step_records_nothing tx op s Hop Hlog) as [Hlog' Hal'].
    rewrite <- Hal'. apply (IH Hrest). exact Hlog'. }
  destruct Hlast as [Hlog Hal]. split; [exact Hlog |]. split; [exact Hal |].
  intros h. rewrite sgt_abort_column, Hlog. reflexivity.
Qed.

End SGTRecords.

Lemma sgt_undo_log_stays_empty_witness :
  let ops := [OpWriteValue 5 0%nat 0%nat; OpReadValue 9 0%nat 0%nat; OpRead 0%nat 1%nat] in
  let run := SGT.start (sg := flagged) 3 fresh_sgt in
  let last := sgt_run (sg := flagged) run.1 ops run.2 in
  atom_info_ last = [] ∧ alloc_ last = alloc_ fresh_sgt ∧
  keeps column last (SGT.abort (sg := flagged) run.1 last).
Proof.
  apply (sgt_undo_log_stays_empty (sg := flagged) 3
           [OpWriteValue 5 0%nat 0%nat; OpReadValue 9 0%nat 0%nat; OpRead 0%nat 1%nat]
           fresh_sgt).
  reflexivity.
Defined.

(** ** Reading one's own write *)

Section ReadYourWrite.
Context {LM : Type} {lm : TwoPL.LockManager LM}.
Context {SG : Type} {sg : SGT.SerializationGraph SG}.

Lemma column_update_lookup {M L : Type} (h : Ref) (offset : nat) (v : Z)
    (st : Coordinator M L) :
  (offset < length (column (deref st h)))%nat →
  column (deref (update (set_column (λ _, (replace (column (deref st h)) offset v).2)) h st) h)
    !!! offset = v.
Proof.
  intros Hlt. rewrite column_update_replace.
  apply list_lookup_total_insert_eq. exact Hlt.
Qed.

Lemma twopl_write_granted (v : Z) (h : Ref) (offset : nat) (tx : Z)
    (st : @TwoPL.State LM) :
  tx ∉ not_alive_ st →
  lock_answer tx true h offset st = true →
  let st1 := (TwoPL.lock_request tx true h offset st).2 in
  TwoPL.writeValue false v h offset tx st =
  (true,
   emplace_front
     (WriteTransactionInformation v (column (deref st1 h) !!! offset) h 0 offset tx false)
     (update (set_column (λ _, (replace (column (deref st1 h)) offset v).2)) h st1)).
Proof.
  intros Halive Hgrant. rewrite <- lock_request_answer in Hgrant.
  unfold TwoPL.writeValue, TwoPL.writeValue_with, TwoPL.writeValue_gate. simpl.
  rewrite decide_False by exact Halive.
  destruct (TwoPL.lock_request tx true h offset st) as [granted st1].
  simpl in *. subst granted. reflexivity.
Qed.

(** X11. A transaction reads its own write.  In the SS2PL coordinator, when
    the lock manager grants the exclusive request of a [writeValue] on a cell
    of the column and then the shared request of a [readValue] on the same
    cell, the [readValue] returns [true] with the value written.  In the SGT
    coordinator the same holds for a transaction whose node does not need an
    abort. *)
Theorem read_your_write (out v : Z) (h : Ref) (offset : nat) (tx : Z)
    (st2 : @TwoPL.State LM) (st : @SGT.State SG) :
  (tx ∉ not_alive_ st2 →
   (offset < length (column (deref st2 h)))%nat →
   lock_answer tx true h offset st2 = true →
   lock_answer tx false h offset (TwoPL.writeValue false v h offset tx st2).2 = true →
   (TwoPL.writeValue false v h offset tx st2).1 = true ∧
   (TwoPL.readValue out h offset tx (TwoPL.writeValue false v h offset tx st2).2).1
     = (true, v)) ∧
  (tx ∉ not_alive_ st →
   (offset < length (column (deref st h)))%nat →
   SGT.needsAbort (manager st) tx = false →
   (SGT.writeValue false v h offset tx st).1 = true ∧
   (SGT.readValue out h offset tx (SGT.writeValue false v h offset tx st).2).1
     = (true, v)).
Proof.
  split.
  - intros Halive Hlen Hw Hr.
    rewrite (twopl_write_granted v h offset tx st2 Halive Hw) in *. cbn [fst snd] in *.
    split; [reflexivity |].
    destruct (lock_request_fields tx true h offset st2) as (_ & Hna & _).
    pose proof (lock_request_keeps column tx true h offset st2 ltac:(reflexivity) h) as Hcol1.
    set (st1 := (TwoPL.lock_request tx true h offset st2).2) in *.
    set (st' := emplace_front _ _) in *.
    assert (Hval : column (deref st' h) !!! offset = v).
    { subst st'. change (deref (emplace_front _ ?s) h) with (deref s h).
      apply column_update_lookup. rewrite Hcol1. exact Hlen. }
    assert (Halive' : tx ∉ not_alive_ st').
    { subst st'. change (not_alive_ (emplace_front _ (update _ _ ?s))) with (not_alive_ s).
      rewrite Hna. exact Halive. }
    rewrite <- lock_request_answer in Hr.
    pose proof (lock_request_keeps column tx false h offset st' ltac:(reflexivity) h) as Hcol2.
    unfold TwoPL.readValue. rewrite decide_False by exact Halive'.
    destruct (TwoPL.lock_request tx false h offset st') as [granted st3].
    simpl in *. subst granted. simpl. rewrite Hcol2, Hval. reflexivity.
  - intros Halive Hlen Hna.
    unfold SGT.writeValue, SGT.writeValue_with, SGT.writeValue_gate,
      SGT.readValue. simpl.
    rewrite bool_decide_eq_false_2 by exact Halive. simpl.
    rewrite Hna. simpl. split; [reflexivity |].
    rewrite decide_False by exact Halive. rewrite Hna. cbn [fst snd].
    f_equal. apply column_update_lookup. exact Hlen.
Qed.

End ReadYourWrite.

Lemma read_your_write_witness :
  let w2 := TwoPL.writeValue (lm := granting) false 5 0%nat 2%nat 1 fresh_2pl in
  let w := SGT.writeValue (sg := flagged) false 5 0%nat 2%nat 1 fresh_sgt in
  (w2.1 = true ∧ (TwoPL.readValue (lm := granting) 9 0%nat 2%nat 1 w2.2).1 = (true, 5)) ∧
  (w.1 = true ∧ (SGT.readValue (sg := flagged) 9 0%nat 2%nat 1 w.2).1 = (true, 5)).
Proof.
  pose proof (read_your_write (lm := granting) (sg := flagged) 9 5 0%nat 2%nat 1
                fresh_2pl fresh_sgt) as [H2 Hs].
  split.
  - apply H2; [apply not_elem_of_empty | vm_compute; lia | reflexivity | reflexivity].
  - apply Hs; [apply not_elem_of_empty | vm_compute; lia | reflexivity].
Defined.

(** ** Failure, and the commit that follows *)

Section Failure.
Context {LM : Type} {lm : TwoPL.LockManager LM}.
Context {SG : Type} {sg : SGT.SerializationGraph SG}.

Lemma twopl_abort_dead (tx : Z) (st : @TwoPL.State LM) : tx ∈ not_alive_ (TwoPL.abort tx st).
Proof.
  destruct (twopl_abort_fields tx st) as (-> & _).
  apply elem_of_union_l, elem_of_singleton. reflexivity.
Qed.

Lemma sgt_abort_dead (tx : Z) (st : @SGT.State SG) : tx ∈ not_alive_ (SGT.abort tx st).
Proof.
  destruct (sgt_abort_fields tx st) as (-> & _).
  apply elem_of_union_l, elem_of_singleton. reflexivity.
Qed.

(** X12. In both coordinators an operation that fails leaves its transaction
    in [not_alive_], whether it failed because the transaction was there
    already, because the lock manager denied the request or because the node
    of the transaction needs an abort. *)
Theorem failed_operation_leaves_dead (out v : Z) (h : Ref) (offset : nat) (tx : Z)
    (st2 : @TwoPL.State LM) (st : @SGT.State SG) :
  ((TwoPL.readValue out h offset tx st2).1.1 = false →
   tx ∈ not_alive_ (TwoPL.readValue out h offset tx st2).2) ∧
  ((TwoPL.read h offset tx st2).1 = 0 →
   tx ∈ not_alive_ (TwoPL.read h offset tx st2).2) ∧
  ((TwoPL.writeValue false v h offset tx st2).1 = false →
   tx ∈ not_alive_ (TwoPL.writeValue false v h offset tx st2).2) ∧
  ((SGT.readValue out h offset tx st).1.1 = false →
   tx ∈ not_alive_ (SGT.readValue out h offset tx st).2) ∧
  ((SGT.read h offset tx st).1 = 0 →
   tx ∈ not_alive_ (SGT.read h offset tx st).2) ∧
  ((SGT.writeValue false v h offset tx st).1 = false →
   tx ∈ not_alive_ (SGT.writeValue false v h offset tx st).2).
Proof.
  unfold TwoPL.readValue, TwoPL.read, TwoPL.writeValue, TwoPL.writeValue_with,
    TwoPL.writeValue_gate, SGT.readValue, SGT.read, SGT.writeValue,
    SGT.writeValue_with, SGT.writeValue_gate.
  cbn [negb andb].
  repeat split.
  - destruct (decide (tx ∈ not_alive_ st2)) as [Hd | Ha]; [intros _; exact Hd |].
    destruct (TwoPL.lock_request tx false h offset st2) as [[|] st1]; simpl;
      [discriminate | intros _; apply twopl_abort_dead].
  - destruct (decide (tx ∈ not_alive_ st2)) as [Hd | Ha]; [intros _; exact Hd |].
    destruct (TwoPL.lock_request tx false h offset st2) as [[|] st1]; simpl;
      [discriminate | intros _; apply twopl_abort_dead].
  - destruct (decide (tx ∈ not_alive_ st2)) as [Hd | Ha]; [intros _; exact Hd |].
    destruct (TwoPL.lock_request tx true h offset st2) as [[|] st1]; simpl;
      [discriminate | intros _; apply twopl_abort_dead].
  - destruct (decide (tx ∈ not_alive_ st)) as [Hd | Ha]; [intros _; exact Hd |].
    destruct (SGT.needsAbort (manager st) tx); simpl;
      [intros _; apply sgt_abort_dead | discriminate].
  - destruct (decide (tx ∈ not_alive_ st)) as [Hd | Ha]; [intros _; exact Hd |].
    destruct (SGT.needsAbort (manager st) tx); simpl;
      [intros _; apply sgt_abort_dead | discriminate].
  - destruct (bool_decide_reflect (tx ∈ not_alive_ st)) as [Hd | Ha];
      [intros _; exact Hd |].
    destruct (SGT.needsAbort (manager st) tx); simpl;
      [intros _; apply sgt_abort_dead | discriminate].
Qed.

End Failure.

Section TwoPLCommitFacts.
Context {LM : Type} {lm : TwoPL.LockManager LM}.
Implicit Type st : @TwoPL.State LM.

(** X13. In the SS2PL coordinator the victims that the lock manager names
    when it denies a request reach the caller of [commit]: after a
    [readValue] or [writeValue] of a live transaction whose request is
    denied, [commit] returns [false], assigns to [oset] the set that [lock]
    left in [abort_transaction_], and takes the transaction out of
    [not_alive_]. *)
Theorem twopl_commit_after_denial (out v : Z) (exclusive : bool) (h : Ref)
    (offset : nat) (tx : Z) (oset : gset Z) st :
  tx ∉ not_alive_ st →
  lock_answer tx exclusive h offset st = false →
  let victims :=
    (TwoPL.lock (manager st) tx exclusive (locking (deref st h)) offset
       (abort_transaction_ st)).2.2 in
  let st' := if exclusive then (TwoPL.writeValue false v h offset tx st).2
             else (TwoPL.readValue out h offset tx st).2 in
  (TwoPL.commit tx oset st').1 = (false, victims) ∧
  tx ∉ not_alive_ (TwoPL.commit tx oset st').2.
Proof.
  intros Halive Hdeny victims st'.
  assert (Hst' : st' = TwoPL.abort tx (TwoPL.lock_request tx exclusive h offset st).2).
  { subst st'. rewrite <- lock_request_answer in Hdeny.
    unfold TwoPL.readValue, TwoPL.writeValue, TwoPL.writeValue_with,
      TwoPL.writeValue_gate. cbn [negb].
    rewrite !decide_False by exact Halive.
    destruct (TwoPL.lock_request tx exclusive h offset st) as [granted st1] eqn:Hreq.
    simpl in Hdeny. subst granted.
    destruct exclusive; rewrite Hreq; reflexivity. }
  assert (Hvictims : abort_transaction_ st' = victims).
  { rewrite Hst'. destruct (twopl_abort_fields tx (TwoPL.lock_request tx exclusive h offset st).2)
      as (_ & -> & _).
    subst victims. unfold TwoPL.lock_request.
    destruct (TwoPL.lock _ _ _ _ _ _) as [granted [[lm' lk] aset]]. reflexivity. }
  assert (Hdead : tx ∈ not_alive_ st') by (rewrite Hst'; apply twopl_abort_dead).
  clearbody st'. unfold TwoPL.commit. rewrite decide_True by exact Hdead.
  cbn [fst snd not_alive_ abort_transaction_ set_manager set_not_alive].
  split; [rewrite Hvictims; reflexivity |].
  intros Hin. apply elem_of_difference in Hin as [_ Hn].
  apply Hn, elem_of_singleton. reflexivity.
Qed.

(** [commit] unlocks and unlinks; it writes neither columns nor
    [lsn_column]. *)
Lemma twopl_commit_keeps_values_aux (tx : Z) (oset : gset Z) st :
  keeps column st (TwoPL.commit tx oset st).2 ∧
  keeps lsn_column st (TwoPL.commit tx oset st).2.
Proof.
  assert (Hk : ∀ {A : Type} (proj : Cells TwoPL.Lock → A),
             (∀ c f, proj (set_locking f c) = proj c) →
             (∀ c f, proj (set_rw_table f c) = proj c) →
             keeps proj st (TwoPL.commit tx oset st).2).
  { intros A proj Hl Hrw. unfold TwoPL.commit.
    destruct (decide (tx ∈ not_alive_ st)); cbn [snd].
    - apply keeps_store. reflexivity.
    - eapply keeps_trans; [| apply keeps_store; reflexivity].
      apply keeps_foldl. intros s t. apply twopl_release_step_keeps; assumption. }
  split; apply Hk; reflexivity.
Qed.

(** X14. The SS2PL [commit] writes no value: whether it returns [true] or
    [false], every column and every [lsn_column] is as it was at the call.
    For a live transaction it returns [true], leaves [oset] as it was and
    empties the undo log. *)
Theorem twopl_commit_keeps_values (tx : Z) (oset : gset Z) st :
  keeps column st (TwoPL.commit tx oset st).2 ∧
  keeps lsn_column st (TwoPL.commit tx oset st).2 ∧
  (tx ∉ not_alive_ st →
   (TwoPL.commit tx oset st).1 = (true, oset) ∧
   atom_info_ (TwoPL.commit tx oset st).2 = [] ∧
   eg_ (TwoPL.commit tx oset st).2 = false).
Proof.
  destruct (twopl_commit_keeps_values_aux tx oset st) as [Hc Hl].
  split; [exact Hc |]. split; [exact Hl |].
  intros Halive. unfold TwoPL.commit. rewrite decide_False by exact Halive.
  repeat split.
Qed.

(** X15. A write that the lock manager granted survives the commit of its
    transaction: after [writeValue] and [commit], which returns [true], the
    cell holds the value written. *)
Theorem twopl_committed_write_persists (v : Z) (h : Ref) (offset : nat) (tx : Z)
    (oset : gset Z) st :
  tx ∉ not_alive_ st →
  (offset < length (column (deref st h)))%nat →
  lock_answer tx true h offset st = true →
  let w := TwoPL.writeValue false v h offset tx st in
  w.1 = true ∧
  (TwoPL.commit tx oset w.2).1 = (true, oset) ∧
  column (deref (TwoPL.commit tx oset w.2).2 h) !!! offset = v.
Proof.
  intros Halive Hlen Hgrant w. subst w.
  rewrite (twopl_write_granted v h offset tx st Halive Hgrant). cbn [fst snd].
  destruct (lock_request_fields tx true h offset st) as (_ & Hna & _).
  pose proof (lock_request_keeps column tx true h offset st ltac:(reflexivity) h) as Hcol1.
  set (st1 := (TwoPL.lock_request tx true h offset st).2) in *.
  set (st' := emplace_front _ _).
  assert (Halive' : tx ∉ not_alive_ st').
  { subst st'. change (not_alive_ (emplace_front _ (update _ _ ?s))) with (not_alive_ s).
    rewrite Hna. exact Halive. }
  destruct (twopl_commit_keeps_values_aux tx oset st') as [Hk _].
  split; [reflexivity |]. split.
  - unfold TwoPL.commit. rewrite decide_False by exact Halive'. reflexivity.
  - rewrite Hk. subst st'. change (deref (emplace_front _ ?s) h) with (deref s h).
    apply column_update_lookup. rewrite Hcol1. exact Hlen.
Qed.

End TwoPLCommitFacts.

Lemma twopl_commit_after_denial_witness :
  (1 ∉ not_alive_ fresh_2pl) ∧
  lock_answer (lm := denying) 1 true 0%nat 2%nat fresh_2pl = false ∧
  (TwoPL.commit (lm := denying) 1 {[9]}
     (TwoPL.writeValue (lm := denying) false 5 0%nat 2%nat 1 fresh_2pl).2).1 = (false, ∅).
Proof.
  assert (Halive : 1 ∉ not_alive_ fresh_2pl) by apply not_elem_of_empty.
  split; [exact Halive |]. split; [reflexivity |].
  exact (proj1 (twopl_commit_after_denial (lm := denying) 9 5 true 0%nat 2%nat 1 {[9]}
                  fresh_2pl Halive eq_refl)).
Defined.

Lemma twopl_committed_write_persists_witness :
  (1 ∉ not_alive_ fresh_2pl) ∧
  (TwoPL.commit (lm := granting) 1 ∅
     (TwoPL.writeValue (lm := granting) false 5 0%nat 2%nat 1 fresh_2pl).2).1 = (true, ∅) ∧
  column (deref (TwoPL.commit (lm := granting) 1 ∅
                   (TwoPL.writeValue (lm := granting) false 5 0%nat 2%nat 1 fresh_2pl).2).2
            0%nat) !!! 2%nat = 5.
Proof.
  assert (Halive : 1 ∉ not_alive_ fresh_2pl) by apply not_elem_of_empty.
  assert (Hlen : (2 < length (column (deref fresh_2pl 0%nat)))%nat) by (vm_compute; lia).
  split; [exact Halive |].
  exact (proj2 (twopl_committed_write_persists (lm := granting) 5 0%nat 2%nat 1 ∅
                  fresh_2pl Halive Hlen eq_refl)).
Defined.

Section TwoPLEntryPoints.
Context {LM : Type} {lm : TwoPL.LockManager LM}.
Implicit Type st : @TwoPL.State LM.


(** X17. In the SS2PL coordinator a successful [read] followed by [readUndo]
    on the same cell leaves the coordinator that [readValue] leaves; a failed
    [read] leaves the coordinator that the failed [readValue] leaves. *)
Theorem twopl_read_then_readUndo (out prv : Z) (h : Ref) (offset : nat) (tx : Z) st :
  let r := TwoPL.read h offset tx st in
  let rv := TwoPL.readValue out h offset tx st in
  (r.1 ≠ 0 → rv.1.1 = true ∧ TwoPL.readUndo prv h offset tx r.2 = rv.2) ∧
  (r.1 = 0 → rv.1 = (false, out) ∧ r.2 = rv.2).
Proof.
  intros r rv. subst r rv.
  unfold TwoPL.read, TwoPL.readValue, TwoPL.readUndo.
  destruct (decide (tx ∈ not_alive_ st)); cbn [fst snd].
  - split; [intros Hne; exfalso; apply Hne; reflexivity | intros _; split; reflexivity].
  - destruct (TwoPL.lock_request tx false h offset st) as [[|] st1]; cbn [negb fst snd].
    + split; [intros _; split; reflexivity | discriminate].
    + split; [intros Hne; exfalso; apply Hne; reflexivity | intros _; split; reflexivity].
Qed.

End TwoPLEntryPoints.

